(** * Micro-savings pipeline: derivation, validation, temporal rules,
      aggregation and returns projection.

    Shallow embedding of [app/core/temporal.py], [app/core/financial.py],
    [app/api/transactions.py], [app/api/orchestrator.py] and
    [app/api/returns.py].

    Conventions of the embedding.
    - A Python [float] is an exact rational ([Q]): sums, products and
      quotients do not round, [math.pow] neither overflows nor underflows,
      and there is no infinity and no NaN.  The properties below are those
      that do not turn on rounding: they equate ([=]) values that the code
      obtains by the same operations in the same order, or rest on the
      comparisons and on the structure of the loops; where a sum is
      written in another order than the code takes it, the two are equal
      as numbers ([==]).  What depends on the binary64 value of a formula
      (bounds on a remanent, cents of a profit, whether a power
      overflows) is left out.
    - A Python [int] is [Z]; list positions are [nat].
    - A naive [datetime] is the integer by which CPython orders it (the
      big-endian packing of year, month, day, hour, minute, second).
    - [datetime.strptime] belongs to the Python library, not to the
      repository: the temporal functions take it as a parameter,
      [None] standing for the [ValueError] it raises.
    - An uncaught exception is [None] in an [option] result. *)

From Stdlib Require Import ZArith QArith Qround Qpower Lia Lqa String Ascii.
From stdpp Require Import gmap strings list.

Local Open Scope Z_scope.

(** ** Numbers *)

Module Num.

(** Python's [x < y], [x <= y] and [x == y] on floats. *)
Definition ltb (x y : Q) : bool :=
  match (x ?= y)%Q with Lt => true | _ => false end.
Definition leb (x y : Q) : bool := Qle_bool x y.
Definition eqb (x y : Q) : bool := Qeq_bool x y.

(** [min(a, b)] and [max(a, b)]: the first argument is kept unless the
    second is strictly smaller (resp. larger). *)
Definition min (x y : Q) : Q := if ltb y x then y else x.
Definition max (x y : Q) : Q := if ltb x y then y else x.

(** [math.floor]. *)
Definition floor (x : Q) : Z := Qfloor x.

(** [round(x, 2)]: nearest multiple of 1/100, ties to the even one. *)
Definition round_half_even (x : Q) : Z :=
  let f := Qfloor x in
  let r := (x - inject_Z f)%Q in
  match (r ?= 1 # 2)%Q with
  | Lt => f
  | Gt => f + 1
  | Eq => if Z.even f then f else f + 1
  end.
Definition round2 (x : Q) : Q :=
  (inject_Z (round_half_even (x * 100)) / 100)%Q.

End Num.

(** ** Data model ([app/models/schemas.py]) *)

Record Expense := mkExpense { e_date : string; e_amount : Q }.

Record Transaction := mkTransaction
  { date : string; amount : Q; ceiling : Q; remanent : Q }.

Record InvalidTransaction := mkInvalidTransaction
  { i_date : string; i_amount : Q; i_ceiling : Q; i_remanent : Q;
    message : string }.

Record QPeriod := mkQPeriod { q_fixed : Q; q_start : string; q_end : string }.
Record PPeriod := mkPPeriod { p_extra : Q; p_start : string; p_end : string }.
Record KPeriod := mkKPeriod { k_start : string; k_end : string }.

Record SavingsByDate := mkSavingsByDate
  { s_start : string; s_end : string; s_amount : Q; s_profits : Q;
    s_tax_benefit : Q }.

Record ValidationResponse := mkValidationResponse
  { valid : list Transaction; invalid : list InvalidTransaction }.

(** [updated_transaction.remanent = r] on the copy of a transaction. *)
Definition set_remanent (t : Transaction) (r : Q) : Transaction :=
  {| date := date t; amount := amount t; ceiling := ceiling t;
     remanent := r |}.

(** The [InvalidTransaction] built from the fields of [t] and a message. *)
Definition reject (t : Transaction) (msg : string) : InvalidTransaction :=
  {| i_date := date t; i_amount := amount t; i_ceiling := ceiling t;
     i_remanent := remanent t; message := msg |}.

Definition datetime := Z.

(** ** Temporal rules ([app/core/temporal.py]) *)

Definition DATE_FORMAT : string := "%Y-%m-%d %H:%M:%S".

Section Temporal.

(** [datetime.strptime(date_str, format)]; [None] is [ValueError]. *)
Variable strptime : string -> string -> option datetime.

Definition parse_date (date_str : string) : option datetime :=
  strptime date_str DATE_FORMAT.

(** The loop over [enumerate(q_periods)], [i] being the position of the
    head of the list: the entries [(q, i, q_start)] appended to
    [matching_q], in order. *)
Fixpoint matching_q_from (i : nat) (t_date : datetime)
    (q_periods : list QPeriod) : list (QPeriod * nat * datetime) :=
  match q_periods with
  | [] => []
  | q :: rest =>
      let tail := matching_q_from (S i) t_date rest in
      match parse_date (q_start q), parse_date (q_end q) with
      | Some q_start, Some q_end =>
          if (q_start <=? t_date) && (t_date <=? q_end)
          then (q, i, q_start) :: tail
          else tail
      | _, _ => tail
      end
  end.

(** The sort key [lambda x: (x[2], -x[1])] and Python's [<] on the
    resulting tuples. *)
Definition sort_key (x : QPeriod * nat * datetime) : datetime * Z :=
  (x.2, - Z.of_nat x.1.2).

Definition key_lt (a b : datetime * Z) : bool :=
  (a.1 <? b.1) || ((a.1 =? b.1) && (a.2 <? b.2)).

(** [list.sort(key=sort_key, reverse=True)]: descending keys, entries
    with equal keys in their original order.  [list.sort] is the
    library's; any stable sort gives this list, here by insertion. *)
Fixpoint insert_desc (x : QPeriod * nat * datetime)
    (l : list (QPeriod * nat * datetime)) :=
  match l with
  | [] => [x]
  | y :: l' =>
      if key_lt (sort_key x) (sort_key y) then y :: insert_desc x l'
      else x :: l
  end.

Definition sort_reverse (l : list (QPeriod * nat * datetime)) :=
  foldr insert_desc [] l.

(** Lines 33-45: the Q stage on the copied transaction. *)
Definition apply_q (t_date : datetime) (q_periods : list QPeriod)
    (updated_transaction : Transaction) : Transaction :=
  let matching_q := matching_q_from 0 t_date q_periods in
  match matching_q with
  | [] => updated_transaction
  | m :: _ =>
      let chosen_q := (hd m (sort_reverse matching_q)).1.1 in
      set_remanent updated_transaction (q_fixed chosen_q)
  end.

(** Lines 47-53: the accumulator [matching_p_extra] after the loop. *)
Definition matching_p_extra (t_date : datetime) (p_periods : list PPeriod)
    : Q :=
  foldl
    (fun acc p =>
       match parse_date (p_start p), parse_date (p_end p) with
       | Some p_start, Some p_end =>
           if (p_start <=? t_date) && (t_date <=? p_end)
           then (acc + p_extra p)%Q
           else acc
       | _, _ => acc
       end)
    0%Q p_periods.

Definition apply_temporal_rules (transaction : Transaction)
    (q_periods : list QPeriod) (p_periods : list PPeriod)
    (k_periods : list KPeriod) : option Transaction * option string :=
  match parse_date (date transaction) with
  | None => (None, Some "Invalid date format"%string)
  | Some t_date =>
      let updated_transaction := transaction in
      let updated_transaction :=
        apply_q t_date q_periods updated_transaction in
      let updated_transaction :=
        set_remanent updated_transaction
          (remanent updated_transaction
           + matching_p_extra t_date p_periods)%Q in
      (Some updated_transaction, None)
  end.

Definition is_in_k_period (t_date : datetime) (k : KPeriod) : bool :=
  match parse_date (k_start k), parse_date (k_end k) with
  | Some k_start, Some k_end => (k_start <=? t_date) && (t_date <=? k_end)
  | _, _ => false
  end.

End Temporal.

(** ** Financial formulas ([app/core/financial.py]) *)

Definition NPS_RATE : Q := 0.0711%Q.
Definition INDEX_RATE : Q := 0.1449%Q.

Definition calculate_time (age : Z) : Z :=
  if age <? 60 then 60 - age else 5.

(** [math.pow(x, t)] for an integer [t], as an exact power: [ValueError]
    on a zero base with a negative exponent; the [OverflowError] of a
    result beyond binary64 and the underflow to zero are not modelled. *)
Definition math_pow (x : Q) (t : Z) : option Q :=
  if Num.eqb x 0 && (t <? 0) then None else Some (x ^ t)%Q.

(** [a / b] on floats: [ZeroDivisionError] on a zero divisor. *)
Definition float_div (a b : Q) : option Q :=
  if Num.eqb b 0 then None else Some (a / b)%Q.

Definition calculate_compound_interest (principal rate : Q) (t : Z)
    : option Q :=
  pw ← math_pow (1 + rate)%Q t; Some (principal * pw)%Q.

Definition calculate_inflation_adjustment (amount inflation : Q) (t : Z)
    : option Q :=
  pw ← math_pow (1 + inflation)%Q t; float_div amount pw.

Definition calculate_tax (income : Q) : Q :=
  let tax := 0%Q in
  let '(tax, income) :=
    if Num.ltb 1500000 income
    then ((tax + (income - 1500000) * 0.30)%Q, 1500000%Q)
    else (tax, income) in
  let '(tax, income) :=
    if Num.ltb 1200000 income
    then ((tax + (income - 1200000) * 0.20)%Q, 1200000%Q)
    else (tax, income) in
  let '(tax, income) :=
    if Num.ltb 1000000 income
    then ((tax + (income - 1000000) * 0.15)%Q, 1000000%Q)
    else (tax, income) in
  let '(tax, income) :=
    if Num.ltb 700000 income
    then ((tax + (income - 700000) * 0.10)%Q, 700000%Q)
    else (tax, income) in
  tax.

Definition calculate_tax_benefit (amount_invested annual_wage : Q) : Q :=
  let nps_deduction :=
    Num.min (Num.min amount_invested (annual_wage * 0.10)%Q) 200000%Q in
  let tax_no_deduction := calculate_tax annual_wage in
  let tax_with_deduction :=
    calculate_tax (Num.max 0%Q (annual_wage - nps_deduction)%Q) in
  (tax_no_deduction - tax_with_deduction)%Q.

Section Aggregation.

Variable strptime : string -> string -> option datetime.

(** The inner loop of [group_savings_by_k]: [total] for one K period. *)
Definition k_total (transactions : list Transaction) (k : KPeriod) : Q :=
  foldl
    (fun total t =>
       match parse_date strptime (date t) with
       | Some t_date =>
           if is_in_k_period strptime t_date k
           then (total + remanent t)%Q
           else total
       | None => total
       end)
    0%Q transactions.

Definition group_savings_by_k (transactions : list Transaction)
    (k_periods : list KPeriod) : list SavingsByDate :=
  map
    (fun k =>
       {| s_start := k_start k; s_end := k_end k;
          s_amount := k_total transactions k;
          s_profits := 0%Q; s_tax_benefit := 0%Q |})
    k_periods.

End Aggregation.

(** ** Transaction endpoints ([app/api/transactions.py]) *)

(** The body of the loop of [parse_transactions], in exact arithmetic:
    the rounding of [base + 100.0] and of [ceiling - amount] for large
    amounts, and the exception of [math.floor] on an infinite or NaN
    amount, are not modelled. *)
Definition parse_expense (exp : Expense) : Transaction :=
  let amount := e_amount exp in
  let '(ceiling, remanent) :=
    if Num.eqb amount 0 then (0%Q, 0%Q)
    else
      let base := (inject_Z (Num.floor (amount / 100)) * 100)%Q in
      let ceiling := (base + 100)%Q in
      let remanent := (ceiling - amount)%Q in
      (ceiling, remanent) in
  {| date := e_date exp; amount := amount; ceiling := ceiling;
     remanent := remanent |}.

Definition parse_transactions (expenses : list Expense) : list Transaction :=
  map parse_expense expenses.

(** The state of the validator loops: [seen_dates], [valid], [invalid]. *)
Record validator_state := mkValidatorState
  { seen_dates : gset string;
    st_valid : list Transaction;
    st_invalid : list InvalidTransaction }.

Definition validator_init : validator_state :=
  {| seen_dates := ∅; st_valid := []; st_invalid := [] |}.

Definition accept (st : validator_state) (t : Transaction) :=
  {| seen_dates := seen_dates st ∪ {[date t]};
     st_valid := st_valid st ++ [t];
     st_invalid := st_invalid st |}.

Definition refuse (st : validator_state) (t : Transaction) (msg : string) :=
  {| seen_dates := seen_dates st;
     st_valid := st_valid st;
     st_invalid := st_invalid st ++ [reject t msg] |}.

(** One iteration of the loop of [validate_transactions]. *)
Definition validate_transactions_step (st : validator_state)
    (t : Transaction) : validator_state :=
  let '(is_valid, fault_message) :=
    if Num.ltb (amount t) 0 then (false, "Negative amnt not allowed"%string)
    else if Num.leb 500000 (amount t) then (false, "Exceeds max limit"%string)
    else if bool_decide (date t ∈ seen_dates st)
         then (false, "Duplicate date"%string)
    else (true, ""%string) in
  if is_valid then accept st t else refuse st t fault_message.

Definition validate_transactions (transactions : list Transaction)
    : ValidationResponse :=
  let st := foldl validate_transactions_step validator_init transactions in
  {| valid := st_valid st; invalid := st_invalid st |}.

(** ** Orchestrator ([app/api/orchestrator.py]) *)

Definition _parse (expenses : list Expense) : list Transaction :=
  map
    (fun exp =>
       let amount := e_amount exp in
       let '(ceiling, remanent) :=
         if Num.eqb amount 0 then (0%Q, 0%Q)
         else
           let base := (inject_Z (Num.floor (amount / 100)) * 100)%Q in
           let ceiling := (base + 100)%Q in
           let remanent := (ceiling - amount)%Q in
           (ceiling, remanent) in
       {| date := e_date exp; amount := amount; ceiling := ceiling;
          remanent := remanent |})
    expenses.

(** One iteration of the loop of [_validate]. *)
Definition _validate_step (st : validator_state) (t : Transaction)
    : validator_state :=
  if Num.ltb (amount t) 0 then refuse st t "Negative amount"
  else if Num.leb 500000 (amount t) then refuse st t "Exceeds max limit"
  else if bool_decide (date t ∈ seen_dates st)
       then refuse st t "Duplicate date"
  else accept st t.

Definition _validate (transactions : list Transaction)
    : list Transaction * list InvalidTransaction :=
  let st := foldl _validate_step validator_init transactions in
  (st_valid st, st_invalid st).

(** ** Returns projection ([app/api/returns.py]) *)

Record ReturnsRequest := mkReturnsRequest
  { age : Z; wage : Q; inflation : Q;
    q : list QPeriod; p : list PPeriod; k : list KPeriod;
    transactions : list Transaction }.

Record ReturnsResponse := mkReturnsResponse
  { transactions_total_amount : Q;
    transactions_total_ceiling : Q;
    savings_by_dates : list SavingsByDate }.

Section Returns.

Variable strptime : string -> string -> option datetime.

(** First loop of [process_returns]: the state is
    [(filtered_transactions, total_amount, total_ceiling)]. *)
Definition filter_totals (request : ReturnsRequest)
    : list Transaction * Q * Q :=
  foldl
    (fun '(filtered_transactions, total_amount, total_ceiling) t =>
       match apply_temporal_rules strptime t
               (q request) (p request) (k request) with
       | (Some updated_t, None) =>
           (filtered_transactions ++ [updated_t],
            (total_amount + amount updated_t)%Q,
            (total_ceiling + ceiling updated_t)%Q)
       | _ => (filtered_transactions, total_amount, total_ceiling)
       end)
    ([], 0%Q, 0%Q) (transactions request).

(** Body of the second loop: the bucket [s] after its iteration, or
    [None] when a formula raises.  The values rounded by [round] are the
    exact ones, which can differ by a cent from the rounding of the
    binary64 ones. *)
Definition project_bucket (is_nps : bool) (t_years : Z)
    (annual_wage inflation : Q) (s : SavingsByDate)
    : option SavingsByDate :=
  if Num.ltb 0 (s_amount s) then
    let rate := if is_nps then NPS_RATE else INDEX_RATE in
    future_value ← calculate_compound_interest (s_amount s) rate t_years;
    real_fv ← calculate_inflation_adjustment future_value inflation t_years;
    let profits := Num.round2 (real_fv - s_amount s) in
    let tax_benefit :=
      if is_nps
      then Num.round2 (calculate_tax_benefit (s_amount s) annual_wage)
      else s_tax_benefit s in
    Some {| s_start := s_start s; s_end := s_end s;
            s_amount := s_amount s; s_profits := profits;
            s_tax_benefit := tax_benefit |}
  else Some s.

Definition process_returns (request : ReturnsRequest) (is_nps : bool)
    : option ReturnsResponse :=
  let '(filtered_transactions, total_amount, total_ceiling) :=
    filter_totals request in
  let savings_by_dates :=
    group_savings_by_k strptime filtered_transactions (k request) in
  let t_years := calculate_time (age request) in
  let annual_wage := (wage request * 12)%Q in
  savings_by_dates ←
    mapM (project_bucket is_nps t_years annual_wage (inflation request))
         savings_by_dates;
  Some {| transactions_total_amount := Num.round2 total_amount;
          transactions_total_ceiling := Num.round2 total_ceiling;
          savings_by_dates := savings_by_dates |}.

End Returns.

(** ** A reference instance of [strptime]

    The library function restricted to the canonical, zero-padded text
    [YYYY-MM-DD HH:MM:SS] and to the format [DATE_FORMAT]; it serves to
    run the pipeline on concrete inputs.  Every other text is refused. *)

Module Canonical.

Definition digit (c : ascii) : option Z :=
  let n := Z.of_nat (nat_of_ascii c) in
  if (48 <=? n) && (n <=? 57) then Some (n - 48) else None.

(** Reads [n] digits, most significant first. *)
Fixpoint number (n : nat) (acc : Z) (s : string) : option (Z * string) :=
  match n, s with
  | O, _ => Some (acc, s)
  | S n', String c s' => d ← digit c; number n' (10 * acc + d) s'
  | S _, EmptyString => None
  end.

Definition expect (c : ascii) (s : string) : option string :=
  match s with
  | String c' s' => if bool_decide (c = c') then Some s' else None
  | EmptyString => None
  end.

Definition days_in_month (y m : Z) : Z :=
  if (m =? 2) then
    if ((y mod 4 =? 0) && negb (y mod 100 =? 0)) || (y mod 400 =? 0)
    then 29 else 28
  else if (m =? 4) || (m =? 6) || (m =? 9) || (m =? 11) then 30 else 31.

Definition strptime (date_str format : string) : option datetime :=
  if bool_decide (format = DATE_FORMAT) then
    '(yr, s) ← number 4 0 date_str; s ← expect "-" s;
    '(mo, s) ← number 2 0 s; s ← expect "-" s;
    '(dy, s) ← number 2 0 s; s ← expect " " s;
    '(hh, s) ← number 2 0 s; s ← expect ":" s;
    '(mi, s) ← number 2 0 s; s ← expect ":" s;
    '(ss, s) ← number 2 0 s;
    if bool_decide (s = EmptyString)
       && (1 <=? yr) && (1 <=? mo) && (mo <=? 12)
       && (1 <=? dy) && (dy <=? days_in_month yr mo)
       && (hh <=? 23) && (mi <=? 59) && (ss <=? 59)
    then
      Some (((((yr * 256 + mo) * 256 + dy) * 256 + hh) * 256 + mi) * 256
            + ss)
    else None
  else None.

End Canonical.

(** ** Notions used to state the properties *)

(** The sum of a list of amounts. *)
Definition sum_Q (l : list Q) : Q := foldr Qplus 0%Q l.

Section Notions.

Variable strptime : string -> string -> option datetime.

(** Containment of a timestamp in the range written by two date texts:
    both texts parse and [start <= t <= end], bounds included. *)
Definition contains (start_text end_text : string) (t : datetime) : bool :=
  match parse_date strptime start_text, parse_date strptime end_text with
  | Some s, Some e => (s <=? t) && (t <=? e)
  | _, _ => false
  end.

(** One of the two date texts of a range does not parse. *)
Definition unparsable_range (start_text end_text : string) : Prop :=
  parse_date strptime start_text = None
  \/ parse_date strptime end_text = None.

Definition q_contains (t : datetime) (q : QPeriod) : bool :=
  contains (q_start q) (q_end q) t.

Definition p_contains (t : datetime) (p : PPeriod) : bool :=
  contains (p_start p) (p_end p) t.

(** The transaction [t] counts for the K period [k]. *)
Definition k_member (k : KPeriod) (t : Transaction) : bool :=
  match parse_date strptime (date t) with
  | Some t_date => contains (k_start k) (k_end k) t_date
  | None => false
  end.

(** The Q period [q], at position [i] of [qs] and starting at [s], wins
    for the timestamp [t]: it contains [t], and every Q period that
    contains [t] starts earlier, or starts at the same time and is at
    the same or a later position.  The end of a period is not
    compared. *)
Definition q_wins (t : datetime) (qs : list QPeriod)
    (i : nat) (q : QPeriod) (s : datetime) : Prop :=
  qs !! i = Some q
  /\ parse_date strptime (q_start q) = Some s
  /\ q_contains t q = true
  /\ forall j q' s',
       qs !! j = Some q' ->
       parse_date strptime (q_start q') = Some s' ->
       q_contains t q' = true ->
       s' < s \/ (s' = s /\ (i <= j)%nat).

(** The sum of [extra] over the P periods that contain [t]. *)
Definition sum_extra (t : datetime) (ps : list PPeriod) : Q :=
  sum_Q (map p_extra (List.filter (p_contains t) ps)).

(** The sum of [remanent] over the transactions counting for [k]. *)
Definition sum_remanent (ts : list Transaction) (k : KPeriod) : Q :=
  sum_Q (map remanent (List.filter (k_member k) ts)).

(** The Q periods containing [t], each with its start, positions
    forgotten. *)
Definition q_entries (t : datetime) (qs : list QPeriod)
    : list (QPeriod * datetime) :=
  omap
    (fun q =>
       match parse_date strptime (q_start q) with
       | Some s => if q_contains t q then Some (q, s) else None
       | None => None
       end)
    qs.

End Notions.

(** Scan from the right: an entry gives way to a later one only when the
    later one starts strictly later. *)
Definition latest_start (l : list (QPeriod * datetime))
    : option (QPeriod * datetime) :=
  foldr
    (fun x acc =>
       match acc with
       | Some y => if x.2 <? y.2 then Some y else Some x
       | None => Some x
       end)
    None l.

(** The amount passes the two amount rules of the validator. *)
Definition admissible (t : Transaction) : Prop :=
  (0 <= amount t)%Q /\ (amount t < 500000)%Q.

(** The three rules of the validator in their priority, [seen] being the
    dates recorded so far and [neg_msg] the text for a negative amount:
    the reason of the first rule that matches, if any. *)
Definition verdict (neg_msg : string) (seen : gset string) (t : Transaction)
    : option string :=
  if Num.ltb (amount t) 0 then Some neg_msg
  else if Num.leb 500000 (amount t) then Some "Exceeds max limit"%string
  else if bool_decide (date t ∈ seen) then Some "Duplicate date"%string
  else None.

(** A validator loop run from the initial state. *)
Definition validator_run
    (step : validator_state -> Transaction -> validator_state)
    (ts : list Transaction) : validator_state :=
  foldl step validator_init ts.

(** ** Sample data

    The scenario of the specification: expenses of January 2023 and
    periods around them, read with the reference [strptime]. *)

Module Sample.

Definition stamp (text : string) : datetime :=
  default 0 (Canonical.strptime text DATE_FORMAT).

Definition jan05 : datetime := Eval vm_compute in stamp "2023-01-05 10:00:00".

Definition tx : Transaction :=
  mkTransaction "2023-01-05 10:00:00" 250 300 50.

(** Two Q periods with the same start and different ends; then the same
    followed by one starting later and one with an unreadable start. *)
Definition q_same_start : list QPeriod :=
  [ mkQPeriod 40 "2023-01-01 00:00:00" "2023-01-10 00:00:00";
    mkQPeriod 70 "2023-01-01 00:00:00" "2023-01-31 00:00:00" ].

Definition q_later_start : list QPeriod :=
  q_same_start
  ++ [ mkQPeriod 90 "2023-01-03 00:00:00" "2023-01-06 00:00:00";
       mkQPeriod 99 "03/01/2023" "2023-01-06 00:00:00" ].

Definition p_three : list PPeriod :=
  [ mkPPeriod 10 "2023-01-01 00:00:00" "2023-01-10 00:00:00";
    mkPPeriod 20 "2023-01-05 10:00:00" "2023-01-05 10:00:00";
    mkPPeriod 30 "2023-01-02 00:00:00" "2023-02-01 00:00:00" ].

(** The request of the end-to-end scenario: the expenses of amounts 250
    and 0 once derived, one Q period with [fixed] 40, one K period. *)
Definition request : ReturnsRequest :=
  {| age := 30; wage := 80000; inflation := 0.05;
     q := [ mkQPeriod 40 "2023-01-01 00:00:00" "2023-01-10 00:00:00" ];
     p := [];
     k := [ mkKPeriod "2023-01-01 00:00:00" "2023-01-31 00:00:00" ];
     transactions :=
       [ mkTransaction "2023-01-05 10:00:00" 250 300 50;
         mkTransaction "2023-01-06 10:00:00" 0 0 0 ] |}.

Definition k_two : list KPeriod :=
  [ mkKPeriod "2023-01-01 00:00:00" "2023-01-05 10:00:00";
    mkKPeriod "2023-01-05 10:00:00" "2023-01-31 00:00:00" ].

End Sample.

(** ** The remaining endpoints and the pipeline

    [filter_transactions] ([app/api/transactions.py]), [_apply_rules],
    [_compute_returns] and [calculate] ([app/api/orchestrator.py]), and
    the job store of [app/api/returns.py]. *)

(** Truth value of an optional text in a condition: [None] and the empty
    text are false. *)
Definition truthy (s : option string) : bool :=
  match s with
  | Some text => negb (String.eqb text "")
  | None => false
  end.

(** The transaction carried by a rejection record. *)
Definition rejected_transaction (r : InvalidTransaction) : Transaction :=
  {| date := i_date r; amount := i_amount r; ceiling := i_ceiling r;
     remanent := i_remanent r |}.

(** [sum(x for ...)]: from 0, adding from the left. *)
Definition py_sum (l : list Q) : Q := foldl Qplus 0%Q l.

Record CalculateRequest := mkCalculateRequest
  { c_age : Z; c_wage : Q; c_inflation : Q;
    c_q : list QPeriod; c_p : list PPeriod; c_k : list KPeriod;
    expenses : list Expense }.

Record PipelineStepSummary := mkPipelineStepSummary
  { parsed : nat; summary_valid : nat; filtered : nat; rejected : nat }.

Record CalculateResponse := mkCalculateResponse
  { summary : PipelineStepSummary;
    rejected_transactions : list InvalidTransaction;
    nps : ReturnsResponse;
    index_fund : ReturnsResponse }.

(** An entry of [JOBS]. *)
Record Job := mkJob
  { job_status : string;
    job_result : option ReturnsResponse;
    job_error : option string }.

Record JobResponse := mkJobResponse
  { jr_job_id : string; jr_status : string }.

Record JobStatusResponse := mkJobStatusResponse
  { js_job_id : string; js_status : string;
    js_result : option ReturnsResponse; js_error : option string }.

Section Pipeline.

Variable strptime : string -> string -> option datetime.

(** One iteration of the loops of [filter_transactions] and of
    [_apply_rules], which have the same body, on the pair
    [(valid, invalid)].  A result without a transaction and without an
    error has no place in the list of transactions: [None]. *)
Definition apply_rules_step (q : list QPeriod) (p : list PPeriod)
    (k : list KPeriod)
    (acc : option (list Transaction * list InvalidTransaction))
    (t : Transaction) : option (list Transaction * list InvalidTransaction) :=
  '(valid, invalid) ← acc;
  let '(updated_t, error_msg) := apply_temporal_rules strptime t q p k in
  if truthy error_msg
  then Some (valid, invalid ++ [reject t (default ""%string error_msg)])
  else updated ← updated_t; Some (valid ++ [updated], invalid).

Definition _apply_rules (transactions : list Transaction)
    (q : list QPeriod) (p : list PPeriod) (k : list KPeriod)
    : option (list Transaction * list InvalidTransaction) :=
  foldl (apply_rules_step q p k) (Some ([], [])) transactions.

Definition filter_transactions (q : list QPeriod) (p : list PPeriod)
    (k : list KPeriod) (transactions : list Transaction)
    : option ValidationResponse :=
  '(valid, invalid) ←
    foldl (apply_rules_step q p k) (Some ([], [])) transactions;
  Some {| valid := valid; invalid := invalid |}.

Definition _compute_returns (transactions : list Transaction)
    (k : list KPeriod) (age : Z) (wage inflation : Q) (is_nps : bool)
    : option ReturnsResponse :=
  let total_amount := py_sum (map amount transactions) in
  let total_ceiling := py_sum (map ceiling transactions) in
  let savings := group_savings_by_k strptime transactions k in
  let t_years := calculate_time age in
  let annual_wage := (wage * 12)%Q in
  savings ← mapM (project_bucket is_nps t_years annual_wage inflation) savings;
  Some {| transactions_total_amount := Num.round2 total_amount;
          transactions_total_ceiling := Num.round2 total_ceiling;
          savings_by_dates := savings |}.

Definition calculate (request : CalculateRequest)
    : option CalculateResponse :=
  let parsed := _parse (expenses request) in
  let '(valid_txns, invalid_from_validation) := _validate parsed in
  '(filtered_txns, invalid_from_filter) ←
    _apply_rules valid_txns (c_q request) (c_p request) (c_k request);
  let all_rejected := invalid_from_validation ++ invalid_from_filter in
  nps_result ←
    _compute_returns filtered_txns (c_k request) (c_age request)
      (c_wage request) (c_inflation request) true;
  index_result ←
    _compute_returns filtered_txns (c_k request) (c_age request)
      (c_wage request) (c_inflation request) false;
  Some {| summary :=
            {| parsed := length parsed;
               summary_valid := length valid_txns;
               filtered := length filtered_txns;
               rejected := length all_rejected |};
          rejected_transactions := all_rejected;
          nps := nps_result;
          index_fund := index_result |}.

(** The text [str(e)] of the exception a formula raises is the
    library's. *)
Variable exception_text : string.

(** [background_process_returns], as a function of the store [JOBS]. *)
Definition background_process_returns (job_id : string)
    (request : ReturnsRequest) (is_nps : bool) (JOBS : gmap string Job)
    : gmap string Job :=
  match process_returns strptime request is_nps with
  | Some result =>
      <[job_id := {| job_status := "completed"; job_result := Some result;
                     job_error := None |}]> JOBS
  | None =>
      <[job_id := {| job_status := "failed"; job_result := None;
                     job_error := Some exception_text |}]> JOBS
  end.

End Pipeline.

(** [calculate_nps_async] and [calculate_index_async] up to their answer,
    [job_id] being the identifier drawn by [uuid.uuid4()]: the store with
    the new entry and the response; the background task runs later. *)
Definition register_job (job_id : string) (JOBS : gmap string Job)
    : gmap string Job * JobResponse :=
  (<[job_id := {| job_status := "processing"; job_result := None;
                  job_error := None |}]> JOBS,
   {| jr_job_id := job_id; jr_status := "processing" |}).

(** [get_job_status]; [None] is the [HTTPException] with status 404. *)
Definition get_job_status (job_id : string) (JOBS : gmap string Job)
    : option JobStatusResponse :=
  match JOBS !! job_id with
  | None => None
  | Some job =>
      Some {| js_job_id := job_id; js_status := job_status job;
              js_result := job_result job; js_error := job_error job |}
  end.

Module PipelineSample.

(** The end-to-end scenario as a request to [calculate]: expenses of
    250, 0 and -50 on three days. *)
Definition calculate_request : CalculateRequest :=
  {| c_age := 30; c_wage := 80000; c_inflation := 0.05;
     c_q := [ mkQPeriod 40 "2023-01-01 00:00:00" "2023-01-10 00:00:00" ];
     c_p := [];
     c_k := [ mkKPeriod "2023-01-01 00:00:00" "2023-01-31 00:00:00" ];
     expenses :=
       [ mkExpense "2023-01-05 10:00:00" 250;
         mkExpense "2023-01-06 10:00:00" 0;
         mkExpense "2023-01-07 10:00:00" (-50) ] |}.

End PipelineSample.

(** * Properties *)

(** ** Facts on the numeric operations *)

Module NumFacts.
Import Num.

Lemma ltb_lt x y : ltb x y = true <-> (x < y)%Q.
Proof.
  unfold ltb. rewrite Qlt_alt. destruct (x ?= y)%Q; split; congruence.
Qed.

Lemma ltb_ge x y : ltb x y = false <-> (y <= x)%Q.
Proof.
  rewrite <- not_true_iff_false, ltb_lt. split.
  - apply Qnot_lt_le.
  - apply Qle_not_lt.
Qed.

Lemma leb_le x y : leb x y = true <-> (x <= y)%Q.
Proof. apply Qle_bool_iff. Qed.

Lemma eqb_eq x y : eqb x y = true <-> (x == y)%Q.
Proof. apply Qeq_bool_iff. Qed.

Lemma eqb_neq x y : eqb x y = false <-> ~ (x == y)%Q.
Proof. rewrite <- not_true_iff_false, eqb_eq. tauto. Qed.

End NumFacts.

(** ** Transaction derivation *)

Lemma _parse_parse_transactions expenses :
  _parse expenses = parse_transactions expenses.
Proof. reflexivity. Qed.

Example derivation_250 :
  parse_transactions [mkExpense "2023-01-05 10:00:00" 250]
  = [mkTransaction "2023-01-05 10:00:00" 250 300 50].
Proof. reflexivity. Qed.

(** ** Time horizon *)

Lemma calculate_time_positive age : 1 <= calculate_time age.
Proof. unfold calculate_time. destruct (Z.ltb_spec age 60); lia. Qed.

(** C9, as amended.  For every age the horizon [calculate_time age] is
    [60 - age] below 60 and 5 from 60 on; it is at least 1, and at least
    5 exactly for the ages up to 55 and from 60 on. *)
Theorem calculate_time_at_least_one (age : Z) :
  calculate_time age = (if age <? 60 then 60 - age else 5)
  /\ 1 <= calculate_time age
  /\ (5 <= calculate_time age <-> age <= 55 \/ 60 <= age).
Proof.
  split; [done|]. split; [apply calculate_time_positive|].
  unfold calculate_time; destruct (Z.ltb_spec age 60); lia.
Qed.

(** C9, as stated, fails: at age 59 the horizon is one year, below the
    claimed minimum of 5. *)
Lemma calculate_time_below_five :
  calculate_time 59 = 1 /\ ~ (forall age, 5 <= calculate_time age).
Proof.
  split; [reflexivity|]. intros H. specialize (H 59). vm_compute in H.
  by apply H.
Qed.

(** ** Temporal rules *)

Section TemporalFacts.

Variable strptime : string -> string -> option datetime.

Lemma key_lt_spec a b :
  key_lt a b = true <-> a.1 < b.1 \/ (a.1 = b.1 /\ a.2 < b.2).
Proof.
  unfold key_lt.
  rewrite orb_true_iff, andb_true_iff, !Z.ltb_lt, Z.eqb_eq. tauto.
Qed.

Lemma key_lt_false a b :
  key_lt a b = false <-> b.1 < a.1 \/ (b.1 = a.1 /\ b.2 <= a.2).
Proof.
  rewrite <- not_true_iff_false, key_lt_spec. lia.
Qed.

Lemma insert_desc_nonempty x l : insert_desc x l <> [].
Proof. destruct l; simpl; [done|]. by destruct (key_lt _ _). Qed.

Lemma sort_reverse_nonempty l : l <> [] -> sort_reverse l <> [].
Proof. destruct l; [done|]. intros _. apply insert_desc_nonempty. Qed.

(** The head of the sorted list is an entry of the list with a greatest
    key. *)
Lemma hd_sort_reverse_max l m :
  l <> [] ->
  hd m (sort_reverse l) ∈ l
  /\ forall y, y ∈ l ->
       key_lt (sort_key (hd m (sort_reverse l))) (sort_key y) = false.
Proof.
  induction l as [|a l IH]; [done|]. intros _.
  change (sort_reverse (a :: l)) with (insert_desc a (sort_reverse l)).
  destruct l as [|b l'].
  - simpl. split; [apply list_elem_of_here|].
    intros y ->%list_elem_of_singleton. apply key_lt_false. lia.
  - destruct IH as [Hin Hmax]; [done|].
    pose proof (sort_reverse_nonempty (b :: l')) as Hne.
    destruct (sort_reverse (b :: l')) as [|h rest]; [by destruct Hne|].
    simpl in Hin, Hmax. simpl.
    destruct (key_lt (sort_key a) (sort_key h)) eqn:E; simpl.
    + split; [by apply list_elem_of_further|].
      intros y [->|Hy]%elem_of_cons; [|by apply Hmax].
      apply key_lt_spec in E. apply key_lt_false. lia.
    + split; [apply list_elem_of_here|].
      intros y [->|Hy]%elem_of_cons.
      * apply key_lt_false. lia.
      * specialize (Hmax y Hy).
        apply key_lt_false in E, Hmax. apply key_lt_false. lia.
Qed.

Lemma contains_spec start_text end_text t :
  contains strptime start_text end_text t = true <->
  exists s e,
    parse_date strptime start_text = Some s
    /\ parse_date strptime end_text = Some e /\ s <= t <= e.
Proof.
  unfold contains.
  destruct (parse_date strptime start_text) as [s|];
    destruct (parse_date strptime end_text) as [e|].
  - rewrite andb_true_iff, !Z.leb_le. split.
    + intros H. exists s, e. done.
    + intros (s' & e' & [= <-] & [= <-] & H). lia.
  - split; [done|]. by intros (s' & e' & _ & ? & _).
  - split; [done|]. by intros (s' & e' & ? & _).
  - split; [done|]. by intros (s' & e' & ? & _).
Qed.

Lemma unparsable_contains start_text end_text t :
  unparsable_range strptime start_text end_text ->
  contains strptime start_text end_text t = false.
Proof.
  unfold contains. intros [-> | ->]; [done|].
  by destruct (parse_date strptime start_text).
Qed.

Lemma q_contains_spec t q :
  q_contains strptime t q = true <->
  exists s e,
    parse_date strptime (q_start q) = Some s
    /\ parse_date strptime (q_end q) = Some e /\ s <= t <= e.
Proof. apply contains_spec. Qed.

(** One step of the loop over [enumerate(q_periods)]. *)
Lemma matching_q_from_cons i t q rest :
  matching_q_from strptime i t (q :: rest)
  = match parse_date strptime (q_start q) with
    | Some s =>
        if q_contains strptime t q
        then (q, i, s) :: matching_q_from strptime (S i) t rest
        else matching_q_from strptime (S i) t rest
    | None => matching_q_from strptime (S i) t rest
    end.
Proof.
  simpl. unfold q_contains, contains.
  destruct (parse_date strptime (q_start q));
    destruct (parse_date strptime (q_end q)); done.
Qed.

(** The entries of [matching_q]: the containing periods, each with its
    position and its parsed start. *)
Lemma matching_q_from_elem n t qs q i s :
  (q, i, s) ∈ matching_q_from strptime n t qs <->
  (n <= i)%nat /\ qs !! (i - n)%nat = Some q
  /\ parse_date strptime (q_start q) = Some s
  /\ q_contains strptime t q = true.
Proof.
  revert n. induction qs as [|q0 rest IH]; intros n.
  - simpl. split; [by intros ?%elem_of_nil|]. by intros (_ & ? & _).
  - rewrite matching_q_from_cons.
    assert (Hrest :
      (q, i, s) ∈ matching_q_from strptime (S n) t rest <->
      (n < i)%nat /\ (q0 :: rest) !! (i - n)%nat = Some q
      /\ parse_date strptime (q_start q) = Some s
      /\ q_contains strptime t q = true).
    { rewrite IH. split.
      - intros (Hle & Hl & Hs & Hc). split; [lia|]. split; [|done].
        replace (i - n)%nat with (S (i - S n)) by lia. done.
      - intros (Hlt & Hl & Hs & Hc). split; [lia|]. split; [|done].
        replace (i - n)%nat with (S (i - S n)) in Hl by lia. done. }
    assert (Hhead : forall P : Prop,
      (P <-> i = n /\ q = q0
             /\ parse_date strptime (q_start q) = Some s
             /\ q_contains strptime t q = true) ->
      (P \/ (q, i, s) ∈ matching_q_from strptime (S n) t rest <->
       (n <= i)%nat /\ (q0 :: rest) !! (i - n)%nat = Some q
       /\ parse_date strptime (q_start q) = Some s
       /\ q_contains strptime t q = true)).
    { intros P HP. rewrite Hrest, HP. split.
      - intros [(-> & -> & Hs & Hc)|(Hlt & Hl & Hs & Hc)].
        + split; [lia|]. by rewrite Nat.sub_diag.
        + split; [lia|done].
      - intros (Hle & Hl & Hs & Hc).
        destruct (decide (i = n)) as [->|Hne].
        + left. rewrite Nat.sub_diag in Hl. simpl in Hl. by injection Hl as ->.
        + right. split; [lia|done]. }
    destruct (parse_date strptime (q_start q0)) as [s0|] eqn:Es0.
    + destruct (q_contains strptime t q0) eqn:Ec0.
      * rewrite elem_of_cons. apply Hhead. split.
        -- intros [= -> -> ->]. done.
        -- intros (-> & -> & Hs & _). congruence.
      * rewrite <- (Hhead False); [tauto|].
        split; [done|]. intros (_ & -> & _ & Hc). congruence.
    + rewrite <- (Hhead False); [tauto|].
      split; [done|]. intros (_ & -> & Hs & _). congruence.
Qed.

Lemma matching_q_nil_iff t qs :
  matching_q_from strptime 0 t qs = []
  <-> forall q, q ∈ qs -> q_contains strptime t q = false.
Proof.
  split.
  - intros Hnil q [j Hj]%list_elem_of_lookup.
    destruct (q_contains strptime t q) eqn:Ec; [|done].
    destruct (proj1 (q_contains_spec t q) Ec) as (s & e & Hs & _).
    assert (Hin : (q, j, s) ∈ matching_q_from strptime 0 t qs).
    { apply matching_q_from_elem. rewrite Nat.sub_0_r.
      split; [lia|done]. }
    rewrite Hnil in Hin. by apply elem_of_nil in Hin.
  - intros Hall. destruct (matching_q_from strptime 0 t qs) as [|x l] eqn:E;
      [done|].
    destruct x as [[q i] s].
    assert (Hin : (q, i, s) ∈ matching_q_from strptime 0 t qs)
      by (rewrite E; apply list_elem_of_here).
    apply matching_q_from_elem in Hin as (_ & Hl & _ & Hc).
    rewrite (Hall q) in Hc; [done|]. by eapply list_elem_of_lookup_2.
Qed.

(** The Q stage: unchanged transaction without a containing period,
    otherwise the [fixed] of a winning period. *)
Lemma apply_q_spec t qs (tx : Transaction) :
  ((forall q, q ∈ qs -> q_contains strptime t q = false) ->
   apply_q strptime t qs tx = tx)
  /\ ((exists q, q ∈ qs /\ q_contains strptime t q = true) ->
      exists i q s,
        q_wins strptime t qs i q s
        /\ apply_q strptime t qs tx = set_remanent tx (q_fixed q)).
Proof.
  unfold apply_q. split.
  - intros Hall. apply matching_q_nil_iff in Hall. by rewrite Hall.
  - intros (q0 & Hq0 & Hc0).
    destruct (matching_q_from strptime 0 t qs) as [|m l] eqn:E.
    { rewrite (proj1 (matching_q_nil_iff t qs) E q0 Hq0) in Hc0. done. }
    rewrite <- E.
    destruct (hd_sort_reverse_max (matching_q_from strptime 0 t qs) m)
      as [Hin Hmax]; [by rewrite E|].
    destruct (hd m (sort_reverse (matching_q_from strptime 0 t qs)))
      as [[q i] s] eqn:Eh.
    exists i, q, s. split; [|done].
    apply matching_q_from_elem in Hin as (_ & Hl & Hs & Hc).
    rewrite Nat.sub_0_r in Hl.
    split; [done|]. split; [done|]. split; [done|].
    intros j q' s' Hl' Hs' Hc'.
    assert (Hin' : (q', j, s') ∈ matching_q_from strptime 0 t qs).
    { apply matching_q_from_elem. rewrite Nat.sub_0_r. split; [lia|done]. }
    specialize (Hmax _ Hin'). apply key_lt_false in Hmax.
    unfold sort_key in Hmax. simpl in Hmax. lia.
Qed.

(** At most one position wins. *)
Lemma q_wins_unique t qs i q s i' q' s' :
  q_wins strptime t qs i q s -> q_wins strptime t qs i' q' s' ->
  i = i' /\ q = q' /\ s = s'.
Proof.
  intros (Hl & Hs & Hc & Hmax) (Hl' & Hs' & Hc' & Hmax').
  specialize (Hmax _ _ _ Hl' Hs' Hc').
  specialize (Hmax' _ _ _ Hl Hs Hc).
  assert (i = i') as <- by lia.
  assert (q = q') as <- by congruence.
  split; [done|]. split; [done|]. congruence.
Qed.

Lemma p_contains_spec t p :
  p_contains strptime t p = true <->
  exists s e,
    parse_date strptime (p_start p) = Some s
    /\ parse_date strptime (p_end p) = Some e /\ s <= t <= e.
Proof. apply contains_spec. Qed.

(** The body of the P loop adds [extra] exactly for a containing
    period. *)
Lemma matching_p_extra_snoc_body t p acc :
  match parse_date strptime (p_start p), parse_date strptime (p_end p) with
  | Some p_start, Some p_end =>
      if (p_start <=? t) && (t <=? p_end) then (acc + p_extra p)%Q else acc
  | _, _ => acc
  end
  = if p_contains strptime t p then (acc + p_extra p)%Q else acc.
Proof.
  unfold p_contains, contains.
  destruct (parse_date strptime (p_start p));
    destruct (parse_date strptime (p_end p)); done.
Qed.


Lemma set_remanent_id (tx : Transaction) : set_remanent tx (remanent tx) = tx.
Proof. by destruct tx. Qed.

(** The result of [apply_temporal_rules] on a parsable date, in terms of
    the Q stage and the P total. *)
Lemma apply_temporal_rules_parsed tx qs ps ks d :
  parse_date strptime (date tx) = Some d ->
  apply_temporal_rules strptime tx qs ps ks
  = (Some (set_remanent tx
             (remanent (apply_q strptime d qs tx)
              + matching_p_extra strptime d ps)%Q), None).
Proof.
  intros Hd. unfold apply_temporal_rules. rewrite Hd.
  f_equal. f_equal. unfold apply_q.
  destruct (matching_q_from strptime 0 d qs); done.
Qed.

Lemma apply_q_remanent tx qs d :
  apply_q strptime d qs tx
  = set_remanent tx (remanent (apply_q strptime d qs tx)).
Proof.
  unfold apply_q. destruct (matching_q_from strptime 0 d qs); [|done].
  by rewrite set_remanent_id.
Qed.

(** Forgetting the positions of [matching_q] gives [q_entries]. *)
Lemma matching_q_from_entries n t qs :
  map (fun x => (x.1.1, x.2)) (matching_q_from strptime n t qs)
  = q_entries strptime t qs.
Proof.
  revert n. induction qs as [|q rest IH]; intros n; [done|].
  rewrite matching_q_from_cons. unfold q_entries. cbn [omap list_omap].
  fold (q_entries strptime t rest).
  destruct (parse_date strptime (q_start q)) as [s|]; [|apply IH].
  destruct (q_contains strptime t q); [|apply IH].
  simpl. by rewrite IH.
Qed.

(** The head of the sorted [matching_q] is the entry that the scan by
    start alone retains: positions grow along the list, so the position
    component of the key never lets a later entry pass an earlier one. *)
Lemma hd_sort_reverse_latest n t qs m :
  matching_q_from strptime n t qs <> [] ->
  latest_start (q_entries strptime t qs)
  = Some ((hd m (sort_reverse (matching_q_from strptime n t qs))).1.1,
          (hd m (sort_reverse (matching_q_from strptime n t qs))).2).
Proof.
  revert n m. induction qs as [|q rest IH]; intros n m; [done|].
  pose proof (matching_q_from_entries (S n) t rest) as Hent.
  rewrite matching_q_from_cons. unfold q_entries. cbn [omap list_omap].
  fold (q_entries strptime t rest).
  destruct (parse_date strptime (q_start q)) as [s|]; [|apply IH].
  destruct (q_contains strptime t q); [|apply IH].
  intros _.
  change (sort_reverse ((q, n, s) :: matching_q_from strptime (S n) t rest))
    with (insert_desc (q, n, s)
            (sort_reverse (matching_q_from strptime (S n) t rest))).
  cbn [latest_start foldr]. fold (latest_start (q_entries strptime t rest)).
  destruct (matching_q_from strptime (S n) t rest) as [|x l] eqn:E.
  - rewrite <- Hent. done.
  - rewrite <- E in *.
    assert (Hne : matching_q_from strptime (S n) t rest <> [])
      by (by rewrite E).
    rewrite (IH (S n) x Hne).
    destruct (hd_sort_reverse_max
                (matching_q_from strptime (S n) t rest) x Hne) as [Hin _].
    pose proof (sort_reverse_nonempty _ Hne) as Hs.
    destruct (sort_reverse (matching_q_from strptime (S n) t rest))
      as [|h rest'] eqn:Es; [done|].
    cbn [hd] in *. destruct h as [[qh ih] sh].
    apply matching_q_from_elem in Hin as (Hle & _).
    cbn [insert_desc]. unfold key_lt, sort_key. cbn [fst snd].
    replace (- Z.of_nat n <? - Z.of_nat ih) with false by lia.
    rewrite andb_false_r, orb_false_r.
    by destruct (s <? sh).
Qed.

Lemma apply_q_latest_start t qs tx :
  apply_q strptime t qs tx
  = match latest_start (q_entries strptime t qs) with
    | Some (q, _) => set_remanent tx (q_fixed q)
    | None => tx
    end.
Proof.
  unfold apply_q.
  destruct (matching_q_from strptime 0 t qs) as [|m l] eqn:E.
  - by rewrite <- (matching_q_from_entries 0), E.
  - rewrite <- E.
    rewrite (hd_sort_reverse_latest 0 t qs m) by (by rewrite E). done.
Qed.

Lemma q_entries_skip t qs1 q qs2 :
  q_contains strptime t q = false ->
  q_entries strptime t (qs1 ++ q :: qs2) = q_entries strptime t (qs1 ++ qs2).
Proof.
  intros Hc. unfold q_entries. rewrite !omap_app. cbn [omap list_omap].
  rewrite Hc. by destruct (parse_date strptime (q_start q)).
Qed.

(** A Q period that does not contain the date can be removed. *)
Lemma apply_q_skip t qs1 q qs2 tx :
  q_contains strptime t q = false ->
  apply_q strptime t (qs1 ++ q :: qs2) tx = apply_q strptime t (qs1 ++ qs2) tx.
Proof.
  intros Hc. by rewrite !apply_q_latest_start, q_entries_skip.
Qed.

(** Two lists of Q periods that agree, position by position, on [fixed],
    on the start text and on whether the period contains the date, give
    the same Q stage: ends matter through containment only. *)
Lemma apply_q_ends t qs qs' tx :
  Forall2
    (fun q q' =>
       q_fixed q = q_fixed q' /\ q_start q = q_start q'
       /\ q_contains strptime t q = q_contains strptime t q')
    qs qs' ->
  apply_q strptime t qs tx = apply_q strptime t qs' tx.
Proof.
  intros H. rewrite !apply_q_latest_start.
  assert (G :
    (fun x => (q_fixed x.1, x.2)) <$> latest_start (q_entries strptime t qs)
    = (fun x => (q_fixed x.1, x.2))
        <$> latest_start (q_entries strptime t qs')).
  { induction H as [|q q' qs qs' (Hf & Hs & Hc) _ IH]; [done|].
    unfold q_entries. cbn [omap list_omap].
    fold (q_entries strptime t qs) (q_entries strptime t qs').
    rewrite <- Hs, <- Hc.
    destruct (parse_date strptime (q_start q)) as [s|]; [|done].
    destruct (q_contains strptime t q); [|done].
    cbn [latest_start foldr].
    fold (latest_start (q_entries strptime t qs))
         (latest_start (q_entries strptime t qs')).
    destruct (latest_start (q_entries strptime t qs)) as [[y sy]|];
      destruct (latest_start (q_entries strptime t qs')) as [[y' sy']|];
      simpl in IH; try done.
    - injection IH as Hy ->. simpl. destruct (s <? sy'); simpl; congruence.
    - simpl. congruence. }
  destruct (latest_start (q_entries strptime t qs)) as [[y sy]|];
    destruct (latest_start (q_entries strptime t qs')) as [[y' sy']|];
    simpl in G; try done.
  congruence.
Qed.

(** A P period that does not contain the date can be removed. *)
Lemma matching_p_extra_skip t ps1 p ps2 :
  p_contains strptime t p = false ->
  matching_p_extra strptime t (ps1 ++ p :: ps2)
  = matching_p_extra strptime t (ps1 ++ ps2).
Proof.
  intros Hc. unfold matching_p_extra. rewrite !foldl_app.
  cbn [foldl]. by rewrite matching_p_extra_snoc_body, Hc.
Qed.

End TemporalFacts.

(** C1. For a transaction whose date parses, the Q stage of
    [apply_temporal_rules] leaves the remanent as it is when no Q period
    contains the date; otherwise the remanent after the Q stage is the
    [fixed] of the one winning period: the containing period with the
    latest start and, among those starting at that time, the lowest
    position.  The Q stage changes no other field, and the transaction
    returned has that remanent plus the P total.  Ends are not compared:
    lists of Q periods that agree on [fixed], on the starts and on which
    periods contain the date give the same result. *)
Theorem q_period_resolution (strptime : string -> string -> option datetime)
    (tx : Transaction) (qs : list QPeriod) (ps : list PPeriod)
    (ks : list KPeriod) (d : datetime) :
  parse_date strptime (date tx) = Some d ->
  exists r_q,
    apply_q strptime d qs tx = set_remanent tx r_q
    /\ apply_temporal_rules strptime tx qs ps ks
       = (Some (set_remanent tx (r_q + matching_p_extra strptime d ps)%Q),
          None)
    /\ ((forall q, q ∈ qs -> q_contains strptime d q = false) ->
        r_q = remanent tx)
    /\ ((exists q, q ∈ qs /\ q_contains strptime d q = true) ->
        exists i q s,
          q_wins strptime d qs i q s /\ r_q = q_fixed q
          /\ forall i' q' s',
               q_wins strptime d qs i' q' s' -> i' = i /\ q' = q)
    /\ (forall qs',
          Forall2
            (fun q q' =>
               q_fixed q = q_fixed q' /\ q_start q = q_start q'
               /\ q_contains strptime d q = q_contains strptime d q')
            qs qs' ->
          apply_temporal_rules strptime tx qs' ps ks
          = apply_temporal_rules strptime tx qs ps ks)
    /\ remanent (apply_q strptime d qs tx) = r_q
    /\ date (apply_q strptime d qs tx) = date tx
    /\ amount (apply_q strptime d qs tx) = amount tx
    /\ ceiling (apply_q strptime d qs tx) = ceiling tx
    /\ exists tx',
         apply_temporal_rules strptime tx qs ps ks = (Some tx', None)
         /\ remanent tx' = (r_q + matching_p_extra strptime d ps)%Q
         /\ date tx' = date tx /\ amount tx' = amount tx
         /\ ceiling tx' = ceiling tx.
Proof.
  intros Hd. exists (remanent (apply_q strptime d qs tx)).
  split; [apply apply_q_remanent|].
  split; [by apply apply_temporal_rules_parsed|].
  destruct (apply_q_spec strptime d qs tx) as [Hnone Hsome].
  split; [|split; [|split]].
  - intros Hall. by rewrite (Hnone Hall).
  - intros Hex. destruct (Hsome Hex) as (i & q & s & Hw & ->).
    exists i, q, s. split; [done|]. split; [done|].
    intros i' q' s' Hw'.
    destruct (q_wins_unique strptime _ _ _ _ _ _ _ _ Hw' Hw) as (? & ? & _).
    done.
  - intros qs' Hsame. unfold apply_temporal_rules. rewrite Hd.
    by rewrite (apply_q_ends strptime d qs qs' tx Hsame).
  - split; [done|].
    pose proof (apply_q_remanent strptime tx qs d) as E.
    split; [by rewrite E|]. split; [by rewrite E|]. split; [by rewrite E|].
    eexists. split; [by apply apply_temporal_rules_parsed|]. done.
Qed.

Lemma q_period_resolution_witness :
  exists tx',
    apply_temporal_rules Canonical.strptime Sample.tx Sample.q_same_start
      Sample.p_three [] = (Some tx', None)
    /\ remanent (apply_q Canonical.strptime Sample.jan05 Sample.q_same_start
                   Sample.tx) = 40%Q
    /\ (remanent tx' == 100)%Q
    /\ date tx' = date Sample.tx.
Proof.
  destruct (q_period_resolution Canonical.strptime Sample.tx
              Sample.q_same_start Sample.p_three [] Sample.jan05)
    as (r_q & _ & _ & _ & _ & _ & Hrq & _ & _ & _
        & tx' & Hres & Hrem & Hdate & _).
  - vm_compute. reflexivity.
  - assert (E : r_q = 40%Q) by (rewrite <- Hrq; vm_compute; reflexivity).
    exists tx'. split; [exact Hres|]. split; [by rewrite Hrq|].
    split; [|exact Hdate]. rewrite Hrem, E. vm_compute. reflexivity.
Defined.

(** Same start, different ends: the earlier position wins. *)
Example q_tie_break_same_start :
  apply_temporal_rules Canonical.strptime Sample.tx Sample.q_same_start [] []
  = (Some (set_remanent Sample.tx (40 + 0)%Q), None)
  /\ apply_temporal_rules Canonical.strptime Sample.tx
       (rev Sample.q_same_start) [] []
     = (Some (set_remanent Sample.tx (70 + 0)%Q), None).
Proof. split; vm_compute; reflexivity. Qed.

(** Different starts: the later start wins, whatever the position. *)
Example q_tie_break_later_start :
  apply_temporal_rules Canonical.strptime Sample.tx Sample.q_later_start [] []
  = (Some (set_remanent Sample.tx (90 + 0)%Q), None)
  /\ apply_temporal_rules Canonical.strptime Sample.tx
       (rev Sample.q_later_start) [] []
     = (Some (set_remanent Sample.tx (90 + 0)%Q), None).
Proof. split; vm_compute; reflexivity. Qed.



(** Three overlapping P periods with extras 10, 20 and 30 add 60. *)
Example p_three_extras :
  (sum_extra Canonical.strptime Sample.jan05 Sample.p_three == 60)%Q
  /\ exists tx',
       apply_temporal_rules Canonical.strptime Sample.tx [] Sample.p_three []
       = (Some tx', None)
       /\ (remanent tx' == remanent Sample.tx + 60)%Q.
Proof.
  split; [reflexivity|]. eexists. split; [vm_compute; reflexivity|].
  reflexivity.
Qed.

(** C4. [apply_temporal_rules] reports an error exactly when the date of
    the transaction does not parse; it then returns no transaction and the
    message "Invalid date format"; for a date that parses it returns a
    transaction and no error, whatever the three period lists. *)
Theorem apply_temporal_rules_failure
    (strptime : string -> string -> option datetime)
    (tx : Transaction) (qs : list QPeriod) (ps : list PPeriod)
    (ks : list KPeriod) :
  ((apply_temporal_rules strptime tx qs ps ks).2 <> None
   <-> parse_date strptime (date tx) = None)
  /\ (parse_date strptime (date tx) = None ->
      apply_temporal_rules strptime tx qs ps ks
      = (None, Some "Invalid date format"%string))
  /\ (parse_date strptime (date tx) <> None ->
      exists tx',
        apply_temporal_rules strptime tx qs ps ks = (Some tx', None)).
Proof.
  unfold apply_temporal_rules.
  destruct (parse_date strptime (date tx)) as [d|]; simpl.
  - split; [split; [done|discriminate]|]. split; [discriminate|].
    intros _. by eexists.
  - split; [split; [done|discriminate]|]. split; [done|]. done.
Qed.

Example unparsable_date_rejected :
  apply_temporal_rules Canonical.strptime
    (mkTransaction "2023-02-30 10:00:00" 250 300 50)
    Sample.q_same_start Sample.p_three []
  = (None, Some "Invalid date format"%string).
Proof. vm_compute. reflexivity. Qed.

(** ** Validator *)

Section ValidatorLoop.

(** A validator loop: its step applies the three rules. *)
Variable step : validator_state -> Transaction -> validator_state.
Variable neg_msg : string.
Hypothesis step_verdict : forall st t,
  step st t
  = match verdict neg_msg (seen_dates st) t with
    | Some msg => refuse st t msg
    | None => accept st t
    end.

Local Abbreviation run := (validator_run step).

Lemma run_snoc pre t : run (pre ++ [t]) = step (run pre) t.
Proof. apply foldl_snoc. Qed.

Lemma verdict_none seen t :
  verdict neg_msg seen t = None <-> admissible t /\ date t ∉ seen.
Proof.
  unfold verdict, admissible.
  destruct (Num.ltb (amount t) 0) eqn:E1.
  { apply NumFacts.ltb_lt in E1. split; [done|]. intros [[H _] _]. lra. }
  apply NumFacts.ltb_ge in E1.
  destruct (Num.leb 500000 (amount t)) eqn:E2.
  { apply NumFacts.leb_le in E2. split; [done|]. intros [[_ H] _]. lra. }
  assert (amount t < 500000)%Q.
  { apply Qnot_le_lt. intros H%NumFacts.leb_le. congruence. }
  case_bool_decide; split; try done.
  by intros [_ ?].
Qed.

Lemma run_seen_valid ts :
  seen_dates (run ts) = list_to_set (map date (st_valid (run ts))).
Proof.
  induction ts as [|t pre IH] using rev_ind; [done|].
  rewrite run_snoc, step_verdict.
  destruct (verdict neg_msg (seen_dates (run pre)) t); simpl; [done|].
  rewrite IH, map_app, list_to_set_app_L. simpl.
  by rewrite (right_id_L ∅ (∪)).
Qed.

Lemma run_valid_NoDup ts : NoDup (map date (st_valid (run ts))).
Proof.
  induction ts as [|t pre IH] using rev_ind; [constructor|].
  rewrite run_snoc, step_verdict.
  destruct (verdict neg_msg (seen_dates (run pre)) t) eqn:E; simpl; [done|].
  apply verdict_none in E as [_ Hnew].
  rewrite run_seen_valid, elem_of_list_to_set in Hnew.
  rewrite map_app. apply NoDup_app. split; [done|]. split.
  - intros x Hx ->%list_elem_of_singleton. done.
  - apply NoDup_singleton.
Qed.

Lemma run_valid_sublist ts : sublist (st_valid (run ts)) ts.
Proof.
  induction ts as [|t pre IH] using rev_ind; [done|].
  rewrite run_snoc, step_verdict.
  destruct (verdict neg_msg (seen_dates (run pre)) t); simpl.
  - by apply sublist_inserts_r.
  - by apply sublist_app.
Qed.

(** A date is recorded exactly when some earlier transaction with that
    date has an admissible amount. *)
Lemma run_seen_iff ts x :
  x ∈ seen_dates (run ts)
  <-> exists t', t' ∈ ts /\ admissible t' /\ date t' = x.
Proof.
  induction ts as [|t pre IH] using rev_ind.
  - simpl. split; [by intros ?%not_elem_of_empty|].
    intros (t' & Hin & _). by apply elem_of_nil in Hin.
  - rewrite run_snoc, step_verdict.
    destruct (verdict neg_msg (seen_dates (run pre)) t) eqn:E; simpl.
    + rewrite IH. split.
      * intros (t' & Hin & Hok & Hd). exists t'.
        split; [apply elem_of_app; by left|done].
      * intros (t' & [Hin | ->%list_elem_of_singleton]%elem_of_app & Hok & Hd).
        { by exists t'. }
        apply IH. rewrite <- Hd.
        destruct (decide (date t ∈ seen_dates (run pre))) as [?|Hn]; [done|].
        assert (verdict neg_msg (seen_dates (run pre)) t = None)
          by (by apply verdict_none).
        congruence.
    + apply verdict_none in E as [Hok Hnew].
      rewrite elem_of_union, elem_of_singleton, IH. split.
      * intros [(t' & Hin & Hok' & Hd)| ->].
        -- exists t'. split; [apply elem_of_app; by left|done].
        -- exists t. split; [apply elem_of_app; right; by left|done].
      * intros (t' & [Hin | ->%list_elem_of_singleton]%elem_of_app & Hok' & Hd).
        -- left. by exists t'.
        -- by right.
Qed.

(** The transaction after [pre] is accepted exactly when its amount is
    admissible and no earlier admissible transaction has its date. *)
Lemma run_accepts pre t :
  (admissible t
   /\ (forall t', t' ∈ pre -> admissible t' -> date t' <> date t)) ->
  st_valid (run (pre ++ [t])) = st_valid (run pre) ++ [t]
  /\ st_invalid (run (pre ++ [t])) = st_invalid (run pre).
Proof.
  intros [Hok Hfirst]. rewrite run_snoc, step_verdict.
  assert (E : verdict neg_msg (seen_dates (run pre)) t = None).
  { apply verdict_none. split; [done|].
    intros (t' & Hin & Hok' & Hd)%run_seen_iff. by eapply Hfirst. }
  by rewrite E.
Qed.

Lemma run_refuses pre t :
  ~ (admissible t
     /\ (forall t', t' ∈ pre -> admissible t' -> date t' <> date t)) ->
  st_valid (run (pre ++ [t])) = st_valid (run pre)
  /\ exists msg,
       st_invalid (run (pre ++ [t])) = st_invalid (run pre) ++ [reject t msg].
Proof.
  intros Hno. rewrite run_snoc, step_verdict.
  destruct (verdict neg_msg (seen_dates (run pre)) t) as [msg|] eqn:E.
  - simpl. split; [done|]. by exists msg.
  - apply verdict_none in E as [Hok Hnew]. destruct Hno. split; [done|].
    intros t' Hin Hok' Hd. apply Hnew, run_seen_iff. by exists t'.
Qed.

(** The rules in their priority, on the transaction that follows
    [pre]. *)
Lemma run_rules pre t :
  let seen := map date (st_valid (run pre)) in
  ((amount t < 0)%Q ->
   step (run pre) t = refuse (run pre) t neg_msg)
  /\ ((0 <= amount t)%Q -> (500000 <= amount t)%Q ->
      step (run pre) t = refuse (run pre) t "Exceeds max limit")
  /\ (admissible t -> date t ∈ seen ->
      step (run pre) t = refuse (run pre) t "Duplicate date")
  /\ (admissible t -> date t ∉ seen ->
      step (run pre) t = accept (run pre) t).
Proof.
  intros seen. rewrite !step_verdict. unfold verdict, admissible.
  assert (Hseen : forall x, x ∈ seen_dates (run pre) <-> x ∈ seen).
  { intros x. by rewrite run_seen_valid, elem_of_list_to_set. }
  destruct (Num.ltb (amount t) 0) eqn:E1.
  { apply NumFacts.ltb_lt in E1.
    repeat split; try done; intros; exfalso; lra. }
  apply NumFacts.ltb_ge in E1.
  destruct (Num.leb 500000 (amount t)) eqn:E2.
  { apply NumFacts.leb_le in E2.
    repeat split; try done; intros; exfalso; lra. }
  assert (amount t < 500000)%Q.
  { apply Qnot_le_lt. intros H%NumFacts.leb_le. congruence. }
  case_bool_decide as Hd; rewrite Hseen in Hd.
  - repeat split; try done; intros; exfalso; lra.
  - repeat split; try done; intros; exfalso; lra.
Qed.

End ValidatorLoop.

Lemma validate_transactions_step_verdict st t :
  validate_transactions_step st t
  = match verdict "Negative amnt not allowed" (seen_dates st) t with
    | Some msg => refuse st t msg
    | None => accept st t
    end.
Proof.
  unfold validate_transactions_step, verdict.
  destruct (Num.ltb (amount t) 0); [done|].
  destruct (Num.leb 500000 (amount t)); [done|].
  by case_bool_decide.
Qed.

Lemma _validate_step_verdict st t :
  _validate_step st t
  = match verdict "Negative amount" (seen_dates st) t with
    | Some msg => refuse st t msg
    | None => accept st t
    end.
Proof.
  unfold _validate_step, verdict.
  destruct (Num.ltb (amount t) 0); [done|].
  destruct (Num.leb 500000 (amount t)); [done|].
  by case_bool_decide.
Qed.

(** The two validators accept the same transactions and keep the same
    set of dates. *)
Lemma validators_same_valid ts :
  st_valid (validator_run validate_transactions_step ts)
  = st_valid (validator_run _validate_step ts)
  /\ seen_dates (validator_run validate_transactions_step ts)
    = seen_dates (validator_run _validate_step ts).
Proof.
  induction ts as [|t pre [IHv IHs]] using rev_ind; [done|].
  unfold validator_run in *. rewrite !foldl_snoc.
  rewrite validate_transactions_step_verdict, _validate_step_verdict.
  unfold verdict. rewrite IHs.
  destruct (Num.ltb (amount t) 0); [done|].
  destruct (Num.leb 500000 (amount t)); [done|].
  case_bool_decide; simpl; [done|]. by rewrite IHv, IHs.
Qed.

(** The rules of the validator as [_validate] applies them to the
    transaction that follows [pre]: negative amount, then amount at or
    above 500000, then a date among those of the transactions accepted
    from [pre]; otherwise the transaction is accepted. *)
Lemma orchestrator_validate_rules (pre : list Transaction) (t : Transaction) :
  let seen := map date (_validate pre).1 in
  ((amount t < 0)%Q ->
   _validate (pre ++ [t])
   = ((_validate pre).1, (_validate pre).2 ++ [reject t "Negative amount"]))
  /\ ((0 <= amount t)%Q -> (500000 <= amount t)%Q ->
      _validate (pre ++ [t])
      = ((_validate pre).1,
         (_validate pre).2 ++ [reject t "Exceeds max limit"]))
  /\ (admissible t -> date t ∈ seen ->
      _validate (pre ++ [t])
      = ((_validate pre).1, (_validate pre).2 ++ [reject t "Duplicate date"]))
  /\ (admissible t -> date t ∉ seen ->
      _validate (pre ++ [t]) = ((_validate pre).1 ++ [t], (_validate pre).2)).
Proof.
  intros seen.
  destruct (run_rules _validate_step "Negative amount"
              _validate_step_verdict pre t) as (H1 & H2 & H3 & H4).
  unfold _validate.
  change (foldl _validate_step validator_init)
    with (validator_run _validate_step).
  rewrite run_snoc.
  split; [|split; [|split]]; intros.
  - by rewrite H1.
  - by rewrite H2.
  - by rewrite H3.
  - by rewrite H4.
Qed.

(** The same rules in [validate_transactions], whose text for a negative
    amount is another one. *)
Lemma endpoint_validate_rules (pre : list Transaction) (t : Transaction) :
  let r := validate_transactions pre in
  let r' := validate_transactions (pre ++ [t]) in
  let seen := map date (valid r) in
  ((amount t < 0)%Q ->
   valid r' = valid r
   /\ invalid r' = invalid r ++ [reject t "Negative amnt not allowed"])
  /\ ((0 <= amount t)%Q -> (500000 <= amount t)%Q ->
      valid r' = valid r
      /\ invalid r' = invalid r ++ [reject t "Exceeds max limit"])
  /\ (admissible t -> date t ∈ seen ->
      valid r' = valid r
      /\ invalid r' = invalid r ++ [reject t "Duplicate date"])
  /\ (admissible t -> date t ∉ seen ->
      valid r' = valid r ++ [t] /\ invalid r' = invalid r).
Proof.
  intros r r' seen.
  destruct (run_rules validate_transactions_step "Negative amnt not allowed"
              validate_transactions_step_verdict pre t) as (H1 & H2 & H3 & H4).
  unfold r, r', seen, validate_transactions. simpl.
  change (foldl validate_transactions_step validator_init)
    with (validator_run validate_transactions_step).
  rewrite run_snoc.
  split; [|split; [|split]]; intros.
  - by rewrite H1.
  - by rewrite H2.
  - by rewrite H3.
  - by rewrite H4.
Qed.

(** C2, evaluated where the code departs from it.  On a transaction of
    amount -50 the endpoint [validate_transactions] rejects with the text
    "Negative amnt not allowed", while [_validate] rejects the same
    transaction with "Negative amount", the text of the claim. *)
Theorem validate_transactions_negative_message :
  let t := mkTransaction "2023-01-07 10:00:00" (-50) 0 50 in
  validate_transactions [t]
  = {| valid := [];
       invalid := [reject t "Negative amnt not allowed"] |}
  /\ _validate [t] = ([], [reject t "Negative amount"])
  /\ reject t "Negative amnt not allowed" <> reject t "Negative amount".
Proof. split; [reflexivity|]. split; [reflexivity|]. discriminate. Qed.

(** C6. Both validators accept the same transactions.  The accepted
    transactions are a sublist of the input with pairwise distinct dates;
    the set of seen dates is the set of dates of the accepted
    transactions; and the transaction that follows [pre] is accepted
    exactly when its amount is admissible and no earlier transaction with
    an admissible amount has its date: an earlier transaction rejected
    for its amount does not block a later one of the same date. *)
Theorem validator_first_date_wins (pre : list Transaction) (t : Transaction) :
  let r := validate_transactions pre in
  let r' := validate_transactions (pre ++ [t]) in
  let first_of_its_date :=
    admissible t
    /\ forall t', t' ∈ pre -> admissible t' -> date t' <> date t in
  valid r = (_validate pre).1
  /\ NoDup (map date (valid r))
  /\ sublist (valid r) pre
  /\ seen_dates (validator_run validate_transactions_step pre)
    = list_to_set (map date (valid r))
  /\ seen_dates (validator_run _validate_step pre)
    = list_to_set (map date (valid r))
  /\ (first_of_its_date -> valid r' = valid r ++ [t])
  /\ (~ first_of_its_date -> valid r' = valid r).
Proof.
  intros r r' first.
  pose proof (validators_same_valid pre) as [Hv Hs].
  pose proof validate_transactions_step_verdict as Hstep.
  split; [exact Hv|].
  split; [by eapply run_valid_NoDup|].
  split; [by eapply run_valid_sublist|].
  split; [by eapply run_seen_valid|].
  split; [rewrite <- Hs; by eapply run_seen_valid|].
  split; intros H.
  - by eapply run_accepts.
  - by eapply run_refuses.
Qed.

(** A transaction rejected for its amount leaves its date free. *)
Example rejected_date_still_free :
  let bad := mkTransaction "2023-01-07 10:00:00" (-50) 0 50 in
  let good := mkTransaction "2023-01-07 10:00:00" 250 300 50 in
  valid (validate_transactions [bad; good; good]) = [good]
  /\ (_validate [bad; good; good]).1 = [good]
  /\ (_validate [bad; good; good]).2
     = [reject bad "Negative amount"; reject good "Duplicate date"].
Proof. vm_compute. done. Qed.

(** ** Savings aggregation *)

Section AggregationFacts.

Variable strptime : string -> string -> option datetime.

Lemma k_member_spec k t :
  k_member strptime k t = true <->
  exists d s e,
    parse_date strptime (date t) = Some d
    /\ parse_date strptime (k_start k) = Some s
    /\ parse_date strptime (k_end k) = Some e /\ s <= d <= e.
Proof.
  unfold k_member. destruct (parse_date strptime (date t)) as [d|].
  - rewrite contains_spec. split.
    + intros (s & e & Hs & He & H). by exists d, s, e.
    + intros (d' & s & e & [= <-] & Hs & He & H). by exists s, e.
  - split; [done|]. by intros (d & s & e & ? & _).
Qed.

(** The body of the inner loop adds the remanent exactly for a
    transaction that counts for [k]. *)
Lemma k_total_body k total t :
  match parse_date strptime (date t) with
  | Some t_date =>
      if is_in_k_period strptime t_date k then (total + remanent t)%Q
      else total
  | None => total
  end
  = if k_member strptime k t then (total + remanent t)%Q else total.
Proof.
  unfold k_member. by destruct (parse_date strptime (date t)).
Qed.

Lemma k_total_sum ts k :
  (k_total strptime ts k == sum_remanent strptime ts k)%Q.
Proof.
  unfold k_total, sum_remanent.
  assert (G : forall acc,
    (foldl
       (fun total t =>
          match parse_date strptime (date t) with
          | Some t_date =>
              if is_in_k_period strptime t_date k
              then (total + remanent t)%Q else total
          | None => total
          end) acc ts
     == acc + sum_Q (map remanent (List.filter (k_member strptime k) ts)))%Q).
  { induction ts as [|t ts IH]; intros acc; simpl.
    - lra.
    - rewrite k_total_body, IH.
      destruct (k_member strptime k t); simpl; lra. }
  rewrite G. lra.
Qed.

(** The total of a period is the sum, taken from 0 and from the left as
    the loop takes it, of the remanents of the transactions counting for
    the period. *)
Lemma k_total_py_sum ts k :
  k_total strptime ts k
  = py_sum (map remanent (List.filter (k_member strptime k) ts)).
Proof.
  unfold k_total, py_sum. generalize 0%Q.
  induction ts as [|t ts IH]; intros acc; [done|].
  cbn [foldl]. rewrite k_total_body. simpl.
  destruct (k_member strptime k t); simpl; apply IH.
Qed.

(** A transaction whose date does not parse changes no total. *)
Lemma k_total_skip_unparsable ts1 t ts2 k :
  parse_date strptime (date t) = None ->
  k_total strptime (ts1 ++ t :: ts2) k = k_total strptime (ts1 ++ ts2) k.
Proof.
  intros H. unfold k_total. rewrite !foldl_app. simpl. by rewrite H.
Qed.

(** No transaction counts for a K period with an unreadable bound. *)
Lemma k_total_unparsable ts k :
  unparsable_range strptime (k_start k) (k_end k) ->
  k_total strptime ts k = 0%Q.
Proof.
  intros Hk. unfold k_total. generalize 0%Q.
  induction ts as [|t ts IH]; intros acc; [done|].
  cbn [foldl]. rewrite k_total_body. unfold k_member.
  destruct (parse_date strptime (date t)); [|apply IH].
  rewrite unparsable_contains by done. apply IH.
Qed.

End AggregationFacts.

(** C7. [group_savings_by_k] returns one bucket per K period, with the
    start and end texts of the K periods in their order, whatever the
    transactions and their order.  A bucket starts with no profits and no
    tax benefit; its amount is the sum of the remanents of the transactions
    whose date parses and lies between the parsed bounds of its period,
    bounds included, added from 0 in the order of the transactions, so that
    each bucket is computed from its own period alone and a transaction
    counts for every period that contains its date.  A transaction whose
    date does not parse counts for no period. *)
Theorem savings_grouped_by_k
    (strptime : string -> string -> option datetime)
    (ts : list Transaction) (ks : list KPeriod) :
  length (group_savings_by_k strptime ts ks) = length ks
  /\ map s_start (group_savings_by_k strptime ts ks) = map k_start ks
  /\ map s_end (group_savings_by_k strptime ts ks) = map k_end ks
  /\ (forall i k,
        ks !! i = Some k ->
        exists s,
          group_savings_by_k strptime ts ks !! i = Some s
          /\ s_start s = k_start k /\ s_end s = k_end k
          /\ s_profits s = 0%Q /\ s_tax_benefit s = 0%Q
          /\ (s_amount s == sum_remanent strptime ts k)%Q
          /\ s_amount s
             = py_sum
                 (map remanent (List.filter (k_member strptime k) ts)))
  /\ (forall ts',
        map (fun s => (s_start s, s_end s))
          (group_savings_by_k strptime ts' ks)
        = map (fun s => (s_start s, s_end s))
            (group_savings_by_k strptime ts ks))
  /\ (forall k t,
        k_member strptime k t = true <->
        exists d s e,
          parse_date strptime (date t) = Some d
          /\ parse_date strptime (k_start k) = Some s
          /\ parse_date strptime (k_end k) = Some e /\ s <= d <= e)
  /\ (forall ts1 t ts2,
        parse_date strptime (date t) = None ->
        (forall k, k_member strptime k t = false)
        /\ group_savings_by_k strptime (ts1 ++ t :: ts2) ks
           = group_savings_by_k strptime (ts1 ++ ts2) ks).
Proof.
  unfold group_savings_by_k.
  split; [by rewrite length_map|].
  split; [by rewrite map_map|].
  split; [by rewrite map_map|].
  split.
  { intros i k Hk. eexists. rewrite list_lookup_fmap, Hk. simpl.
    split; [done|]. repeat (split; [done|]).
    split; [apply k_total_sum|apply k_total_py_sum]. }
  split.
  { intros ts'. by rewrite !map_map. }
  split; [apply k_member_spec|].
  intros ts1 t ts2 Ht. split.
  - intros k. unfold k_member. by rewrite Ht.
  - apply map_ext. intros k. by rewrite k_total_skip_unparsable.
Qed.

(** A transaction dated on the end of one period and on the start of the
    next counts for both. *)
Example boundary_counts_for_both :
  group_savings_by_k Canonical.strptime [Sample.tx] Sample.k_two
  = [ mkSavingsByDate "2023-01-01 00:00:00" "2023-01-05 10:00:00"
        (0 + 50) 0 0;
      mkSavingsByDate "2023-01-05 10:00:00" "2023-01-31 00:00:00"
        (0 + 50) 0 0 ].
Proof. vm_compute. reflexivity. Qed.

(** ** Returns projection *)

(** At an inflation of -1 the divisor of the inflation adjustment is
    zero and the projection raises. *)
Example returns_zero_divisor :
  process_returns Canonical.strptime
    {| age := age Sample.request; wage := wage Sample.request;
       inflation := -1;
       q := q Sample.request; p := p Sample.request; k := k Sample.request;
       transactions := transactions Sample.request |} true
  = None.
Proof. vm_compute. reflexivity. Qed.

(** The values of the unit tests of the formulas. *)
Example tax_unit_tests :
  (calculate_tax 700000 == 0)%Q
  /\ (calculate_tax 1600000 == 150000)%Q
  /\ (calculate_tax_benefit 100000 1500000 == 20000)%Q.
Proof. split; [reflexivity|]. split; reflexivity. Qed.

(** ** Periods with unreadable bounds *)

(** C10. A period of which the start or the end does not parse contains
    no date.  Such a Q period, and such a P period, can be taken out of its
    list without changing the answer of [apply_temporal_rules], error
    included; such a K period yields a bucket of amount 0; and the K list
    has no effect on [apply_temporal_rules], whose only error comes from the
    date of the transaction. *)
Theorem unparsable_period_ignored
    (strptime : string -> string -> option datetime) :
  (forall q,
     unparsable_range strptime (q_start q) (q_end q) ->
     (forall d, q_contains strptime d q = false)
     /\ forall tx qs1 qs2 ps ks,
         apply_temporal_rules strptime tx (qs1 ++ q :: qs2) ps ks
         = apply_temporal_rules strptime tx (qs1 ++ qs2) ps ks)
  /\ (forall p,
       unparsable_range strptime (p_start p) (p_end p) ->
       (forall d, p_contains strptime d p = false)
       /\ forall tx qs ps1 ps2 ks,
           apply_temporal_rules strptime tx qs (ps1 ++ p :: ps2) ks
           = apply_temporal_rules strptime tx qs (ps1 ++ ps2) ks)
  /\ (forall k,
       unparsable_range strptime (k_start k) (k_end k) ->
       (forall d, is_in_k_period strptime d k = false)
       /\ forall ts ks1 ks2,
           group_savings_by_k strptime ts (ks1 ++ k :: ks2) !! length ks1
           = Some {| s_start := k_start k; s_end := k_end k;
                     s_amount := 0; s_profits := 0; s_tax_benefit := 0 |})
  /\ (forall tx qs ps ks ks',
       apply_temporal_rules strptime tx qs ps ks
       = apply_temporal_rules strptime tx qs ps ks')
  /\ (forall tx qs ps ks,
       parse_date strptime (date tx) <> None ->
       (apply_temporal_rules strptime tx qs ps ks).2 = None).
Proof.
  split; [|split; [|split; [|split]]].
  - intros q Hq.
    assert (Hc : forall d, q_contains strptime d q = false)
      by (intros d; by apply unparsable_contains).
    split; [done|]. intros tx qs1 qs2 ps ks. unfold apply_temporal_rules.
    destruct (parse_date strptime (date tx)) as [d|]; [|done].
    by rewrite apply_q_skip.
  - intros p Hp.
    assert (Hc : forall d, p_contains strptime d p = false)
      by (intros d; by apply unparsable_contains).
    split; [done|]. intros tx qs ps1 ps2 ks. unfold apply_temporal_rules.
    destruct (parse_date strptime (date tx)) as [d|]; [|done].
    by rewrite matching_p_extra_skip.
  - intros k Hk. split.
    + intros d. by apply unparsable_contains.
    + intros ts ks1 ks2. unfold group_savings_by_k.
      rewrite list_lookup_fmap, list_lookup_middle by done. simpl.
      by rewrite k_total_unparsable.
  - done.
  - intros tx qs ps ks Hd. unfold apply_temporal_rules.
    by destruct (parse_date strptime (date tx)).
Qed.

(** The Q period with an unreadable start of the sample list is passed
    over, and a K period with an unreadable end collects nothing. *)
Example unreadable_periods :
  apply_temporal_rules Canonical.strptime Sample.tx
    [mkQPeriod 99 "03/01/2023" "2023-01-06 00:00:00"]
    [mkPPeriod 7 "2023-01-01 00:00:00" "tomorrow"] []
  = (Some (set_remanent Sample.tx (50 + 0)%Q), None)
  /\ group_savings_by_k Canonical.strptime [Sample.tx]
       [mkKPeriod "2023-01-01 00:00:00" "2023-13-01 00:00:00"]
     = [mkSavingsByDate "2023-01-01 00:00:00" "2023-13-01 00:00:00" 0 0 0].
Proof. split; vm_compute; reflexivity. Qed.

(** * Further properties of the code *)

(** ** Validator: partition and idempotence *)

Section ValidatorMore.

Variable step : validator_state -> Transaction -> validator_state.
Variable neg_msg : string.
Hypothesis step_verdict : forall st t,
  step st t
  = match verdict neg_msg (seen_dates st) t with
    | Some msg => refuse st t msg
    | None => accept st t
    end.

Local Abbreviation run := (validator_run step).

(** Every transaction goes to exactly one of the two lists. *)
Lemma run_partition ts :
  ts ≡ₚ st_valid (run ts) ++ map rejected_transaction (st_invalid (run ts)).
Proof.
  induction ts as [|t pre IH] using rev_ind; [done|].
  rewrite run_snoc, step_verdict.
  destruct (verdict neg_msg (seen_dates (run pre)) t); simpl.
  - rewrite map_app, app_assoc. apply Permutation_app; [done|].
    simpl. by destruct t.
  - rewrite <- app_assoc. rewrite IH at 1. rewrite <- !app_assoc.
    apply Permutation_app_head, Permutation_app_comm.
Qed.

Lemma run_valid_admissible ts : Forall admissible (st_valid (run ts)).
Proof.
  induction ts as [|t pre IH] using rev_ind; [constructor|].
  rewrite run_snoc, step_verdict.
  destruct (verdict neg_msg (seen_dates (run pre)) t) eqn:E; simpl; [done|].
  apply (verdict_none neg_msg) in E as [Hok _].
  apply Forall_app. split; [done|]. by constructor.
Qed.

(** The reason of a rejection is one of the three texts. *)
Lemma run_invalid_messages ts :
  Forall
    (fun r => message r = neg_msg \/ message r = "Exceeds max limit"%string
              \/ message r = "Duplicate date"%string)
    (st_invalid (run ts)).
Proof.
  induction ts as [|t pre IH] using rev_ind; [constructor|].
  rewrite run_snoc, step_verdict.
  destruct (verdict neg_msg (seen_dates (run pre)) t) as [msg|] eqn:E;
    simpl; [|done].
  apply Forall_app. split; [done|]. constructor; [|constructor]. simpl.
  unfold verdict in E.
  destruct (Num.ltb (amount t) 0); [left; congruence|].
  destruct (Num.leb 500000 (amount t)); [right; left; congruence|].
  case_bool_decide; [right; right; congruence|done].
Qed.

(** Admissible amounts with pairwise distinct dates are all accepted. *)
Lemma run_clean l :
  Forall admissible l -> NoDup (map date l) ->
  run l
  = {| seen_dates := list_to_set (map date l); st_valid := l;
       st_invalid := [] |}.
Proof.
  induction l as [|t pre IH] using rev_ind; [done|].
  intros [Hpre Ht]%Forall_app Hnd. rewrite map_app in Hnd.
  apply NoDup_app in Hnd as (Hnd & Hfresh & _).
  rewrite Forall_singleton in Ht.
  rewrite run_snoc, step_verdict, (IH Hpre Hnd). simpl.
  assert (E : verdict neg_msg (list_to_set (map date pre)) t = None).
  { apply verdict_none. split; [done|]. rewrite elem_of_list_to_set.
    intros Hin. apply (Hfresh _ Hin). simpl. apply list_elem_of_here. }
  rewrite E. unfold accept. simpl. f_equal.
  rewrite map_app, list_to_set_app_L. simpl.
  by rewrite (right_id_L ∅ (∪)).
Qed.

Lemma run_idempotent ts :
  st_valid (run (st_valid (run ts))) = st_valid (run ts)
  /\ st_invalid (run (st_valid (run ts))) = [].
Proof.
  rewrite (run_clean (st_valid (run ts))).
  - done.
  - apply run_valid_admissible.
  - by eapply run_valid_NoDup.
Qed.

End ValidatorMore.

(** X3. Both validators split their input: the accepted transactions
    together with the transactions of the rejection records are a
    rearrangement of the input, so that the two lists have as many entries
    as the input; no accepted transaction has an amount for which the
    test [amount < 0] or the test [amount >= 500000] of the code succeeds;
    and every rejection carries one of the three reasons of its
    validator. *)
Theorem validator_partition (ts : list Transaction) :
  let r := validate_transactions ts in
  let o := _validate ts in
  ts ≡ₚ valid r ++ map rejected_transaction (invalid r)
  /\ ts ≡ₚ o.1 ++ map rejected_transaction o.2
  /\ (length (valid r) + length (invalid r))%nat = length ts
  /\ (length o.1 + length o.2)%nat = length ts
  /\ Forall
       (fun t => Num.ltb (amount t) 0 = false
                 /\ Num.leb 500000 (amount t) = false)
       (valid r)
  /\ Forall
       (fun x => message x = "Negative amnt not allowed"%string
                 \/ message x = "Exceeds max limit"%string
                 \/ message x = "Duplicate date"%string)
       (invalid r)
  /\ Forall
       (fun x => message x = "Negative amount"%string
                 \/ message x = "Exceeds max limit"%string
                 \/ message x = "Duplicate date"%string)
       o.2.
Proof.
  intros r o.
  pose proof (run_partition _ _ validate_transactions_step_verdict ts) as Hr.
  pose proof (run_partition _ _ _validate_step_verdict ts) as Ho.
  split; [exact Hr|]. split; [exact Ho|].
  split.
  { apply Permutation_length in Hr.
    rewrite length_app, length_map in Hr. by symmetry. }
  split.
  { apply Permutation_length in Ho.
    rewrite length_app, length_map in Ho. by symmetry. }
  split.
  { eapply Forall_impl;
      [eapply run_valid_admissible, validate_transactions_step_verdict|].
    intros t [Hlo Hhi]. split; [by apply NumFacts.ltb_ge|].
    destruct (Num.leb 500000 (amount t)) eqn:E; [|done].
    apply NumFacts.leb_le in E. lra. }
  split.
  - apply (run_invalid_messages _ _ validate_transactions_step_verdict).
  - apply (run_invalid_messages _ _ _validate_step_verdict).
Qed.

(** X4. On transactions whose amounts all lie in [0, 500000) and whose
    dates are pairwise distinct, both validators accept everything, in
    order, and reject nothing. *)
Theorem validator_accepts_clean_input (ts : list Transaction) :
  Forall admissible ts -> NoDup (map date ts) ->
  validate_transactions ts = {| valid := ts; invalid := [] |}
  /\ _validate ts = (ts, []).
Proof.
  intros Hok Hnd. unfold validate_transactions, _validate.
  change (foldl validate_transactions_step validator_init ts)
    with (validator_run validate_transactions_step ts).
  change (foldl _validate_step validator_init ts)
    with (validator_run _validate_step ts).
  rewrite (run_clean _ _ validate_transactions_step_verdict ts Hok Hnd).
  rewrite (run_clean _ _ _validate_step_verdict ts Hok Hnd). done.
Qed.

Lemma validator_accepts_clean_input_witness :
  let ts := [ mkTransaction "2023-01-05 10:00:00" 250 300 50;
              mkTransaction "2023-01-06 10:00:00" 0 0 0 ] in
  validate_transactions ts = {| valid := ts; invalid := [] |}
  /\ _validate ts = (ts, []).
Proof.
  apply validator_accepts_clean_input.
  - repeat constructor; vm_compute; congruence.
  - simpl. apply NoDup_cons. split; [|apply NoDup_singleton].
    intros H%list_elem_of_singleton. discriminate H.
Defined.

(** X5. Validation is idempotent: validating the accepted transactions
    again accepts them all and rejects none. *)
Theorem validator_idempotent (ts : list Transaction) :
  validate_transactions (valid (validate_transactions ts))
  = {| valid := valid (validate_transactions ts); invalid := [] |}
  /\ _validate (_validate ts).1 = ((_validate ts).1, []).
Proof.
  destruct (run_idempotent _ _ validate_transactions_step_verdict ts)
    as [Hv Hi].
  destruct (run_idempotent _ _ _validate_step_verdict ts) as [Hv' Hi'].
  unfold validate_transactions, _validate. simpl.
  change (foldl validate_transactions_step validator_init)
    with (validator_run validate_transactions_step).
  change (foldl _validate_step validator_init)
    with (validator_run _validate_step).
  by rewrite Hv, Hi, Hv', Hi'.
Qed.

(** X6. The two validators reject the same transactions in the same
    order, with the same reason except for a negative amount, where
    [validate_transactions] writes "Negative amnt not allowed" and
    [_validate] writes "Negative amount". *)
Theorem validators_reject_alike (ts : list Transaction) :
  Forall2
    (fun a b =>
       rejected_transaction a = rejected_transaction b
       /\ (((0 <= i_amount a)%Q /\ message a = message b)
           \/ ((i_amount a < 0)%Q
               /\ message a = "Negative amnt not allowed"%string
               /\ message b = "Negative amount"%string)))
    (invalid (validate_transactions ts)) (_validate ts).2.
Proof.
  unfold validate_transactions, _validate. simpl.
  change (foldl validate_transactions_step validator_init)
    with (validator_run validate_transactions_step).
  change (foldl _validate_step validator_init)
    with (validator_run _validate_step).
  induction ts as [|t pre IH] using rev_ind; [constructor|].
  destruct (validators_same_valid pre) as [_ Hs].
  rewrite !run_snoc.
  rewrite validate_transactions_step_verdict, _validate_step_verdict.
  unfold verdict. rewrite Hs.
  destruct (Num.ltb (amount t) 0) eqn:E1.
  { apply NumFacts.ltb_lt in E1. simpl. apply Forall2_app; [done|].
    constructor; [|constructor]. simpl. split; [done|]. right. done. }
  apply NumFacts.ltb_ge in E1.
  destruct (Num.leb 500000 (amount t)).
  { simpl. apply Forall2_app; [done|].
    constructor; [|constructor]. simpl. split; [done|]. left. done. }
  case_bool_decide; simpl; [|done].
  apply Forall2_app; [done|].
  constructor; [|constructor]. simpl. split; [done|]. left. done.
Qed.

(** ** Temporal rules: overriding and filtering *)

Section TemporalMore.

Variable strptime : string -> string -> option datetime.

Lemma latest_start_nil l : latest_start l = None <-> l = [].
Proof.
  destruct l as [|x l]; [done|]. split; [|done]. cbn [latest_start foldr].
  fold (latest_start l). destruct (latest_start l); [|done].
  by destruct (_ <? _).
Qed.

Lemma q_entries_nil t qs :
  q_entries strptime t qs = []
  <-> forall q, q ∈ qs -> q_contains strptime t q = false.
Proof.
  rewrite <- (matching_q_from_entries strptime 0), <- matching_q_nil_iff.
  split; [apply map_eq_nil|by intros ->].
Qed.

(** With a containing Q period, the Q stage sets the same remanent on
    every transaction. *)
Lemma apply_q_override t qs :
  (exists q, q ∈ qs /\ q_contains strptime t q = true) ->
  exists q, forall tx,
    apply_q strptime t qs tx = set_remanent tx (q_fixed q).
Proof.
  intros (q0 & Hin & Hc).
  destruct (latest_start (q_entries strptime t qs)) as [[q s]|] eqn:E.
  - exists q. intros tx. by rewrite apply_q_latest_start, E.
  - apply latest_start_nil in E.
    rewrite (proj1 (q_entries_nil t qs) E q0 Hin) in Hc. done.
Qed.

(** The loop of [_apply_rules] and [filter_transactions] from any
    pair of lists. *)
Lemma apply_rules_fold q p k ts valid invalid :
  foldl (apply_rules_step strptime q p k) (Some (valid, invalid)) ts
  = Some
      (valid ++ omap (fun t => (apply_temporal_rules strptime t q p k).1) ts,
       invalid
       ++ map (fun t => reject t "Invalid date format")
            (filter (fun t => parse_date strptime (date t) = None) ts)).
Proof.
  revert valid invalid. induction ts as [|t ts IH]; intros valid invalid.
  - simpl. by rewrite !app_nil_r.
  - cbn [foldl omap list_omap]. rewrite filter_cons.
    unfold apply_rules_step at 2. unfold apply_temporal_rules. simpl.
    destruct (parse_date strptime (date t)) as [d|] eqn:Ed; simpl.
    + rewrite IH. by rewrite <- app_assoc.
    + rewrite IH. simpl. by rewrite <- app_assoc.
Qed.

Lemma omap_filter_length q p k ts :
  (length (omap (fun t => (apply_temporal_rules strptime t q p k).1) ts)
   + length (filter (fun t => parse_date strptime (date t) = None) ts))%nat
  = length ts.
Proof.
  induction ts as [|t ts IH]; [done|].
  cbn [omap list_omap]. rewrite filter_cons.
  unfold apply_temporal_rules at 1.
  destruct (parse_date strptime (date t)) as [d|] eqn:Ed; simpl; lia.
Qed.

End TemporalMore.

(** X7. When a Q period contains the date of a transaction, the result of
    [apply_temporal_rules] does not depend on the remanent the transaction
    came with, and applying the rules to the result gives the result
    again. *)
Theorem q_override_idempotent
    (strptime : string -> string -> option datetime)
    (tx : Transaction) (qs : list QPeriod) (ps : list PPeriod)
    (ks : list KPeriod) (d : datetime) :
  parse_date strptime (date tx) = Some d ->
  (exists q, q ∈ qs /\ q_contains strptime d q = true) ->
  exists tx',
    apply_temporal_rules strptime tx qs ps ks = (Some tx', None)
    /\ apply_temporal_rules strptime tx' qs ps ks = (Some tx', None)
    /\ forall r,
         apply_temporal_rules strptime (set_remanent tx r) qs ps ks
         = (Some tx', None).
Proof.
  intros Hd Hex. destruct (apply_q_override strptime d qs Hex) as [q Hq].
  exists (set_remanent tx (q_fixed q + matching_p_extra strptime d ps)%Q).
  split; [|split].
  - rewrite (apply_temporal_rules_parsed strptime tx qs ps ks d Hd).
    by rewrite Hq.
  - rewrite (apply_temporal_rules_parsed strptime (set_remanent tx _)
               qs ps ks d Hd).
    by rewrite Hq.
  - intros r.
    rewrite (apply_temporal_rules_parsed strptime (set_remanent tx r)
               qs ps ks d Hd).
    by rewrite Hq.
Qed.

Lemma q_override_idempotent_witness :
  exists tx',
    apply_temporal_rules Canonical.strptime Sample.tx Sample.q_same_start
      Sample.p_three [] = (Some tx', None)
    /\ apply_temporal_rules Canonical.strptime tx' Sample.q_same_start
         Sample.p_three [] = (Some tx', None).
Proof.
  destruct (q_override_idempotent Canonical.strptime Sample.tx
              Sample.q_same_start Sample.p_three [] Sample.jan05)
    as (tx' & H1 & H2 & _).
  - vm_compute. reflexivity.
  - exists (mkQPeriod 40 "2023-01-01 00:00:00" "2023-01-10 00:00:00").
    split; [apply list_elem_of_here|vm_compute; reflexivity].
  - exists tx'. split; [exact H1|exact H2].
Defined.

(** X9. [_apply_rules] and [filter_transactions] never fail and return
    the same two lists.  The rejected list holds, in order, the
    transactions whose date does not parse, each as it came and with the
    message "Invalid date format"; the valid list holds, in order, the
    results of [apply_temporal_rules] on the others, each with the date,
    amount and ceiling of its transaction; the two lists have together as
    many entries as the input. *)
Theorem apply_rules_partition
    (strptime : string -> string -> option datetime)
    (ts : list Transaction) (q : list QPeriod) (p : list PPeriod)
    (k : list KPeriod) :
  exists valid_list invalid_list,
    _apply_rules strptime ts q p k = Some (valid_list, invalid_list)
    /\ filter_transactions strptime q p k ts
       = Some {| valid := valid_list; invalid := invalid_list |}
    /\ invalid_list
       = map (fun t => reject t "Invalid date format")
           (filter (fun t => parse_date strptime (date t) = None) ts)
    /\ Forall2
         (fun t u =>
            apply_temporal_rules strptime t q p k = (Some u, None)
            /\ date u = date t /\ amount u = amount t
            /\ ceiling u = ceiling t)
         (filter (fun t => is_Some (parse_date strptime (date t))) ts)
         valid_list
    /\ (length valid_list + length invalid_list)%nat = length ts.
Proof.
  eexists. eexists. unfold _apply_rules, filter_transactions.
  rewrite apply_rules_fold. simpl.
  split; [done|]. split; [done|]. split; [done|]. split.
  - induction ts as [|t ts IH]; [constructor|].
    cbn [omap list_omap]. rewrite filter_cons.
    unfold apply_temporal_rules at 2.
    destruct (parse_date strptime (date t)) as [d|] eqn:Ed; simpl.
    + constructor; [|done].
      unfold apply_temporal_rules. rewrite Ed. split; [done|].
      simpl. by rewrite (apply_q_remanent strptime t q d).
    + done.
  - rewrite length_map. apply omap_filter_length.
Qed.

(** ** Aggregation: nested periods *)

Section AggregationMore.

Variable strptime : string -> string -> option datetime.

Lemma sum_remanent_nonneg ts k :
  Forall (fun t => (0 <= remanent t)%Q) ts ->
  (0 <= sum_remanent strptime ts k)%Q.
Proof.
  unfold sum_remanent. induction 1 as [|t ts Ht _ IH]; simpl; [lra|].
  destruct (k_member strptime k t); simpl; lra.
Qed.

Lemma sum_remanent_nested ts k1 k2 :
  (forall d, is_in_k_period strptime d k1 = true ->
             is_in_k_period strptime d k2 = true) ->
  Forall (fun t => (0 <= remanent t)%Q) ts ->
  (sum_remanent strptime ts k1 <= sum_remanent strptime ts k2)%Q.
Proof.
  intros Hin. unfold sum_remanent.
  induction 1 as [|t ts Ht _ IH]; simpl; [lra|].
  assert (Hm : k_member strptime k1 t = true ->
               k_member strptime k2 t = true).
  { unfold k_member. destruct (parse_date strptime (date t)); [|done].
    apply Hin. }
  destruct (k_member strptime k1 t); simpl.
  - rewrite Hm by done. simpl. lra.
  - destruct (k_member strptime k2 t); simpl; lra.
Qed.

End AggregationMore.

(** X11. When no remanent is negative, no bucket is negative, and a
    bucket whose period lies within the period of another holds at most as
    much as the other. *)
Theorem savings_nested_periods
    (strptime : string -> string -> option datetime)
    (ts : list Transaction) (ks : list KPeriod)
    (i j : nat) (k1 k2 : KPeriod) :
  Forall (fun t => (0 <= remanent t)%Q) ts ->
  ks !! i = Some k1 -> ks !! j = Some k2 ->
  (forall d, is_in_k_period strptime d k1 = true ->
             is_in_k_period strptime d k2 = true) ->
  exists b1 b2,
    group_savings_by_k strptime ts ks !! i = Some b1
    /\ group_savings_by_k strptime ts ks !! j = Some b2
    /\ (0 <= s_amount b1)%Q /\ (s_amount b1 <= s_amount b2)%Q.
Proof.
  intros Hpos Hi Hj Hin. unfold group_savings_by_k.
  rewrite !list_lookup_fmap, Hi, Hj. simpl.
  eexists. eexists. split; [done|]. split; [done|]. simpl.
  rewrite !k_total_sum. split.
  - by apply sum_remanent_nonneg.
  - by apply sum_remanent_nested.
Qed.

Lemma savings_nested_periods_witness :
  exists b1 b2,
    group_savings_by_k Canonical.strptime [Sample.tx]
      [ mkKPeriod "2023-01-05 00:00:00" "2023-01-05 23:59:59";
        mkKPeriod "2023-01-01 00:00:00" "2023-01-31 00:00:00" ] !! 0%nat
    = Some b1
    /\ group_savings_by_k Canonical.strptime [Sample.tx]
         [ mkKPeriod "2023-01-05 00:00:00" "2023-01-05 23:59:59";
           mkKPeriod "2023-01-01 00:00:00" "2023-01-31 00:00:00" ] !! 1%nat
       = Some b2
    /\ (0 <= s_amount b1)%Q /\ (s_amount b1 <= s_amount b2)%Q.
Proof.
  apply (savings_nested_periods Canonical.strptime [Sample.tx] _ 0 1
           (mkKPeriod "2023-01-05 00:00:00" "2023-01-05 23:59:59")
           (mkKPeriod "2023-01-01 00:00:00" "2023-01-31 00:00:00")).
  - constructor; [vm_compute; discriminate|constructor].
  - reflexivity.
  - reflexivity.
  - intros d. unfold is_in_k_period, parse_date. cbn [k_start k_end].
    repeat
      match goal with
      | |- context [Canonical.strptime ?a ?b] =>
          let v := eval vm_compute in (Canonical.strptime a b) in
          change (Canonical.strptime a b) with v
      end.
    cbv beta iota. rewrite !andb_true_iff, !Z.leb_le. lia.
Defined.

(** ** Returns and the pipeline *)

Section ReturnsMore.

Variable strptime : string -> string -> option datetime.

(** The three components of the first loop of [process_returns]. *)
Lemma filter_totals_full request :
  filter_totals strptime request
  = (let kept :=
       omap
         (fun t =>
            (apply_temporal_rules strptime t
               (q request) (p request) (k request)).1)
         (transactions request) in
     (kept, py_sum (map amount kept), py_sum (map ceiling kept))).
Proof.
  unfold filter_totals, py_sum.
  match goal with |- context [foldl ?F _ _] => set (body := F) end.
  assert (G : forall ts acc a c,
    foldl body (acc, a, c) ts
    = (let kept :=
         omap
           (fun t =>
              (apply_temporal_rules strptime t
                 (q request) (p request) (k request)).1) ts in
       (acc ++ kept, foldl Qplus a (map amount kept),
        foldl Qplus c (map ceiling kept)))).
  { induction ts as [|t ts IH]; intros acc a c.
    - simpl. by rewrite app_nil_r.
    - cbn [foldl omap list_omap].
      assert (Hstep :
        body (acc, a, c) t
        = match (apply_temporal_rules strptime t
                   (q request) (p request) (k request)).1 with
          | Some u => (acc ++ [u], (a + amount u)%Q, (c + ceiling u)%Q)
          | None => (acc, a, c)
          end).
      { unfold body, apply_temporal_rules.
        by destruct (parse_date strptime (date t)). }
      rewrite Hstep.
      destruct (apply_temporal_rules strptime t
                  (q request) (p request) (k request)).1;
        rewrite IH; [|done].
      simpl. by rewrite <- app_assoc. }
  by rewrite G.
Qed.

End ReturnsMore.

(** X18. [process_returns] is [_compute_returns] on the valid list of
    [_apply_rules]: the endpoint and the pipeline of the orchestrator
    compute the same answer from the same transactions. *)
Theorem returns_as_pipeline (strptime : string -> string -> option datetime)
    (request : ReturnsRequest) (is_nps : bool) :
  exists valid_list invalid_list,
    _apply_rules strptime (transactions request)
      (q request) (p request) (k request)
    = Some (valid_list, invalid_list)
    /\ process_returns strptime request is_nps
       = _compute_returns strptime valid_list (k request) (age request)
           (wage request) (inflation request) is_nps.
Proof.
  eexists. eexists. unfold _apply_rules. rewrite apply_rules_fold.
  split; [done|]. simpl.
  unfold process_returns, _compute_returns. rewrite filter_totals_full.
  done.
Qed.

(** ** The pipeline of the orchestrator and the job store *)

Section PipelineFacts.

Variable strptime : string -> string -> option datetime.

Lemma compute_returns_inv ts ks age wage inflation is_nps response :
  _compute_returns strptime ts ks age wage inflation is_nps = Some response ->
  transactions_total_amount response = Num.round2 (py_sum (map amount ts))
  /\ transactions_total_ceiling response
     = Num.round2 (py_sum (map ceiling ts))
  /\ length (savings_by_dates response) = length ks.
Proof.
  unfold _compute_returns.
  set (buckets := group_savings_by_k strptime ts ks).
  set (f := project_bucket is_nps (calculate_time age) (wage * 12)%Q
              inflation).
  destruct (mapM f buckets) as [out|] eqn:E; simpl; [|done].
  intros [= <-]. simpl. split; [done|]. split; [done|].
  apply mapM_Some, Forall2_length in E. rewrite <- E.
  unfold buckets, group_savings_by_k. by rewrite length_map.
Qed.

(** The steps of [calculate], once it has answered. *)
Lemma calculate_inv request response :
  calculate strptime request = Some response ->
  exists valid_txns invalid_from_validation filtered_txns invalid_from_filter,
    _validate (_parse (expenses request))
    = (valid_txns, invalid_from_validation)
    /\ _apply_rules strptime valid_txns
         (c_q request) (c_p request) (c_k request)
       = Some (filtered_txns, invalid_from_filter)
    /\ _compute_returns strptime filtered_txns (c_k request) (c_age request)
         (c_wage request) (c_inflation request) true
       = Some (nps response)
    /\ _compute_returns strptime filtered_txns (c_k request) (c_age request)
         (c_wage request) (c_inflation request) false
       = Some (index_fund response)
    /\ summary response
       = {| parsed := length (_parse (expenses request));
            summary_valid := length valid_txns;
            filtered := length filtered_txns;
            rejected :=
              length (invalid_from_validation ++ invalid_from_filter) |}
    /\ rejected_transactions response
       = invalid_from_validation ++ invalid_from_filter.
Proof.
  unfold calculate.
  destruct (_validate (_parse (expenses request))) as [v i1].
  destruct (_apply_rules strptime v (c_q request) (c_p request)
              (c_k request)) as [[f i2]|] eqn:Er; simpl; [|done].
  destruct (_compute_returns strptime f (c_k request) (c_age request)
              (c_wage request) (c_inflation request) true) as [rn|] eqn:En;
    simpl; [|done].
  destruct (_compute_returns strptime f (c_k request) (c_age request)
              (c_wage request) (c_inflation request) false) as [ri|] eqn:Ei;
    simpl; [|done].
  intros [= <-]. by exists v, i1, f, i2.
Qed.

End PipelineFacts.

(** X20. When [calculate] answers, its summary adds up: [parsed] is the
    number of expenses, every parsed transaction is either filtered or
    rejected, [rejected] counts the rejection records of the answer, and
    [filtered] is at most [valid], itself at most [parsed].  Each
    rejection carries one of four reasons, and the NPS and index parts
    report the same totals and one bucket per K period. *)
Theorem calculate_accounts (strptime : string -> string -> option datetime)
    (request : CalculateRequest) (response : CalculateResponse) :
  calculate strptime request = Some response ->
  let sm := summary response in
  parsed sm = length (expenses request)
  /\ (filtered sm + rejected sm)%nat = parsed sm
  /\ rejected sm = length (rejected_transactions response)
  /\ (filtered sm <= summary_valid sm)%nat
  /\ (summary_valid sm <= parsed sm)%nat
  /\ Forall
       (fun r => message r = "Negative amount"%string
                 \/ message r = "Exceeds max limit"%string
                 \/ message r = "Duplicate date"%string
                 \/ message r = "Invalid date format"%string)
       (rejected_transactions response)
  /\ transactions_total_amount (nps response)
     = transactions_total_amount (index_fund response)
  /\ transactions_total_ceiling (nps response)
     = transactions_total_ceiling (index_fund response)
  /\ length (savings_by_dates (nps response)) = length (c_k request)
  /\ length (savings_by_dates (index_fund response)) = length (c_k request).
Proof.
  intros Hres sm.
  destruct (calculate_inv strptime request response Hres)
    as (v & i1 & f & i2 & Hval & Hrules & Hnps & Hidx & Hsum & Hrej).
  unfold sm. rewrite Hsum, Hrej. simpl.
  pose proof (run_partition _ _ _validate_step_verdict
                (_parse (expenses request))) as Hpart.
  pose proof (run_invalid_messages _ _ _validate_step_verdict
                (_parse (expenses request))) as Hmsg.
  unfold _validate in Hval.
  change (foldl _validate_step validator_init)
    with (validator_run _validate_step) in Hval.
  injection Hval as Hv Hi1. rewrite Hv, Hi1 in Hpart. rewrite Hi1 in Hmsg.
  apply Permutation_length in Hpart.
  rewrite length_app, length_map in Hpart.
  unfold _apply_rules in Hrules. rewrite apply_rules_fold in Hrules.
  simpl in Hrules. injection Hrules as Hf Hi2.
  pose proof (omap_filter_length strptime (c_q request) (c_p request)
                (c_k request) v) as Hlen.
  rewrite Hf in Hlen.
  assert (Hl2 : length i2
                = length (filter
                            (fun t => parse_date strptime (date t) = None) v))
    by (by rewrite <- Hi2, length_map).
  rewrite <- Hl2 in Hlen.
  destruct (compute_returns_inv strptime _ _ _ _ _ _ _ Hnps)
    as (Hna & Hnc & Hnl).
  destruct (compute_returns_inv strptime _ _ _ _ _ _ _ Hidx)
    as (Hia & Hic & Hil).
  rewrite length_app.
  assert (Hp : length (_parse (expenses request)) = length (expenses request))
    by (unfold _parse; by rewrite length_map).
  split; [done|]. split; [lia|]. split; [done|]. split; [lia|].
  split; [lia|]. split.
  - apply Forall_app. split.
    + eapply Forall_impl; [exact Hmsg|]. simpl. tauto.
    + rewrite <- Hi2. apply Forall_fmap, Forall_true. simpl. tauto.
  - split; [congruence|]. split; [congruence|]. done.
Qed.

Lemma calculate_accounts_witness :
  exists response,
    calculate Canonical.strptime PipelineSample.calculate_request
    = Some response
    /\ parsed (summary response) = 3%nat
    /\ (filtered (summary response) + rejected (summary response))%nat
       = parsed (summary response).
Proof.
  eexists. split; [vm_compute; reflexivity|].
  destruct (calculate_accounts Canonical.strptime
              PipelineSample.calculate_request _
              ltac:(vm_compute; reflexivity)) as (H1 & H2 & _).
  split; [exact H1|exact H2].
Defined.

(** The scenario of the specification through [calculate]: the expense of
    -50 is rejected, the other two are kept, and the one bucket holds
    80. *)
Example calculate_scenario :
  exists response s,
    calculate Canonical.strptime PipelineSample.calculate_request
    = Some response
    /\ summary response
       = {| parsed := 3; summary_valid := 2; filtered := 2; rejected := 1 |}
    /\ map message (rejected_transactions response) = ["Negative amount"%string]
    /\ savings_by_dates (nps response) = [s]
    /\ (s_amount s == 80)%Q.
Proof.
  eexists. eexists. split; [vm_compute; reflexivity|].
  split; [reflexivity|]. split; [reflexivity|]. split; reflexivity.
Qed.

Section JobFacts.

Variable strptime : string -> string -> option datetime.
Variable exception_text : string.

Lemma get_job_status_insert job_id other job (JOBS : gmap string Job) :
  get_job_status other (<[job_id := job]> JOBS)
  = if decide (job_id = other)
    then Some {| js_job_id := other; js_status := job_status job;
                 js_result := job_result job; js_error := job_error job |}
    else get_job_status other JOBS.
Proof.
  unfold get_job_status. rewrite lookup_insert.
  by destruct (decide (job_id = other)).
Qed.

End JobFacts.

(** X22. The life of a job in the store.  Once registered it is
    reported as processing; once its background task has run it is
    reported as completed with the answer of [process_returns], or as
    failed with the text of the exception when [process_returns] raises;
    the other jobs are reported as before; and an identifier that is not
    in the store is not found. *)
Theorem job_lifecycle (strptime : string -> string -> option datetime)
    (exception_text : string) (JOBS : gmap string Job)
    (job_id : string) (request : ReturnsRequest) (is_nps : bool) :
  let registered := (register_job job_id JOBS).1 in
  let finished :=
    background_process_returns strptime exception_text job_id request is_nps
      registered in
  get_job_status job_id registered
  = Some {| js_job_id := job_id; js_status := "processing";
            js_result := None; js_error := None |}
  /\ get_job_status job_id finished
     = Some
         (match process_returns strptime request is_nps with
          | Some result =>
              {| js_job_id := job_id; js_status := "completed";
                 js_result := Some result; js_error := None |}
          | None =>
              {| js_job_id := job_id; js_status := "failed";
                 js_result := None; js_error := Some exception_text |}
          end)
  /\ (forall other,
        other <> job_id ->
        get_job_status other finished = get_job_status other JOBS)
  /\ (forall other, JOBS !! other = None -> get_job_status other JOBS = None).
Proof.
  intros registered finished.
  split; [|split; [|split]].
  - unfold registered, register_job. simpl.
    by rewrite get_job_status_insert, decide_True.
  - unfold finished, background_process_returns.
    destruct (process_returns strptime request is_nps);
      rewrite get_job_status_insert, decide_True by done; done.
  - intros other Hother. unfold finished, background_process_returns.
    destruct (process_returns strptime request is_nps);
      rewrite get_job_status_insert, decide_False by done;
      unfold registered, register_job; simpl;
      by rewrite get_job_status_insert, decide_False.
  - intros other Hnone. unfold get_job_status. by rewrite Hnone.
Qed.
